(** * Soliton North Star Node: phase ledger and trigonometric transform

    A shallow embedding of the registry core of the repository:

    - [src/core/trigonometric_fpt.ts]: [TrigonometricProcessor] and
      [SolitonRegistry] (module [Core] below);
    - the enhanced server ([SimplifiedTrigFPT] with its inlined processor and
      registry, and the [POST /revoke] handler; module [Server] below).

    Numbers.  A JavaScript [number] is modelled by the type [JS.number]: a real
    number, one of the two infinities, or NaN.  Arithmetic on the special
    values follows IEEE 754 as ECMAScript prescribes it; arithmetic on finite
    values is exact (rounding and overflow are not modelled, and there is a
    single zero, read as +0).  [Math.sin], [Math.cos], [Math.sqrt] and
    [Math.atan2] are the real functions on finite arguments.  Where a double
    could overflow on the way, a statement bounds its inputs by
    [JS.MAX_VALUE], so that the exact value and the double differ by rounding
    only.

    Hashing.  [JSON.stringify] and the SHA-256 hex digest are parameters of the
    development (class [Crypto]); every statement about the ledger holds for
    all of their instances.

    Clock and randomness.  [Date.now()] and [Math.random()] are inputs of the
    operations that read them. *)

From Stdlib Require Import Reals Lra Lia List String Ascii ZArith Bool Arith DecimalString.
From Stdlib Require Import Permutation.
Import ListNotations.

Set Implicit Arguments.
Set Warnings "-register-all".
Open Scope string_scope.

(* ====================================================================== *)
(** * JavaScript numbers *)
(* ====================================================================== *)

Module JS.

Inductive number : Type :=
| Num (r : R)
| PosInf
| NegInf
| NaN.

Definition isFinite (x : number) : bool :=
  match x with Num _ => true | _ => false end.

Definition isNaN (x : number) : bool :=
  match x with NaN => true | _ => false end.

Definition Rltb (a b : R) : bool := if Rlt_dec a b then true else false.
Definition Reqb (a b : R) : bool := if Req_dec_T a b then true else false.

(** [x < y]; every comparison with NaN is false. *)
Definition lt (x y : number) : bool :=
  match x, y with
  | NaN, _ | _, NaN => false
  | Num a, Num b => Rltb a b
  | Num _, PosInf => true
  | Num _, NegInf => false
  | PosInf, _ => false
  | NegInf, NegInf => false
  | NegInf, _ => true
  end.

(** [x > y] *)
Definition gt (x y : number) : bool := lt y x.

(** Unary minus. *)
Definition neg (x : number) : number :=
  match x with
  | Num a => Num (- a)
  | PosInf => NegInf
  | NegInf => PosInf
  | NaN => NaN
  end.

(** [x + y] *)
Definition add (x y : number) : number :=
  match x, y with
  | NaN, _ | _, NaN => NaN
  | Num a, Num b => Num (a + b)
  | PosInf, NegInf | NegInf, PosInf => NaN
  | PosInf, _ | _, PosInf => PosInf
  | NegInf, _ | _, NegInf => NegInf
  end.

(** [x - y] *)
Definition sub (x y : number) : number := add x (neg y).

(** The infinity with the sign of [a], NaN for [a = 0]. *)
Definition signed_inf (a : R) : number :=
  if Rltb 0 a then PosInf else if Rltb a 0 then NegInf else NaN.

(** [x * y] *)
Definition mul (x y : number) : number :=
  match x, y with
  | NaN, _ | _, NaN => NaN
  | Num a, Num b => Num (a * b)
  | Num a, PosInf | PosInf, Num a => signed_inf a
  | Num a, NegInf | NegInf, Num a => signed_inf (- a)
  | PosInf, PosInf | NegInf, NegInf => PosInf
  | PosInf, NegInf | NegInf, PosInf => NegInf
  end.

(** [x / y]; the zero divisor is +0. *)
Definition div (x y : number) : number :=
  match x, y with
  | NaN, _ | _, NaN => NaN
  | Num a, Num b => if Reqb b 0 then signed_inf a else Num (a / b)
  | Num _, _ => Num 0
  | PosInf, Num b => if Rltb b 0 then NegInf else PosInf
  | NegInf, Num b => if Rltb b 0 then PosInf else NegInf
  | _, _ => NaN
  end.

Definition Math_abs (x : number) : number :=
  match x with
  | Num a => Num (Rabs a)
  | PosInf | NegInf => PosInf
  | NaN => NaN
  end.

Definition Math_min (x y : number) : number :=
  match x, y with
  | NaN, _ | _, NaN => NaN
  | Num a, Num b => Num (Rmin a b)
  | NegInf, _ | _, NegInf => NegInf
  | PosInf, z | z, PosInf => z
  end.

Definition Math_max (x y : number) : number :=
  match x, y with
  | NaN, _ | _, NaN => NaN
  | Num a, Num b => Num (Rmax a b)
  | PosInf, _ | _, PosInf => PosInf
  | NegInf, z | z, NegInf => z
  end.

Definition Math_sin (x : number) : number :=
  match x with Num a => Num (sin a) | _ => NaN end.

Definition Math_cos (x : number) : number :=
  match x with Num a => Num (cos a) | _ => NaN end.

Definition Math_sqrt (x : number) : number :=
  match x with
  | Num a => if Rltb a 0 then NaN else Num (sqrt a)
  | PosInf => PosInf
  | _ => NaN
  end.

Definition Math_PI : number := Num PI.

(** [Math.atan2(y, x)] on the real plane. *)
Definition atan2R (y x : R) : R :=
  if Rltb 0 x then atan (y / x)
  else if Rltb x 0 then (if Rltb y 0 then atan (y / x) - PI else atan (y / x) + PI)
  else if Rltb 0 y then PI / 2
  else if Rltb y 0 then - (PI / 2)
  else 0.

Definition Math_atan2 (y x : number) : number :=
  match y, x with
  | NaN, _ | _, NaN => NaN
  | Num a, Num b => Num (atan2R a b)
  | Num _, PosInf => Num 0
  | Num a, NegInf => if Rltb a 0 then Num (- PI) else Num PI
  | PosInf, Num _ => Num (PI / 2)
  | NegInf, Num _ => Num (- (PI / 2))
  | PosInf, PosInf => Num (PI / 4)
  | PosInf, NegInf => Num (3 * PI / 4)
  | NegInf, PosInf => Num (- (PI / 4))
  | NegInf, NegInf => Num (- (3 * PI / 4))
  end.

(** Truthiness of a number: 0 and NaN are falsy. *)
Definition truthy (x : number) : bool :=
  match x with
  | Num a => negb (Reqb a 0)
  | NaN => false
  | _ => true
  end.

(** [x || d] on an optional number ([None] is [undefined]). *)
Definition or_default (x : option number) (d : number) : number :=
  match x with
  | Some v => if truthy v then v else d
  | None => d
  end.

(** An integer (a [Date.now()] reading, a length) as a number. *)
Definition of_Z (z : Z) : number := Num (IZR z).
Definition of_nat (n : nat) : number := Num (INR n).

(** [Number.MAX_VALUE], the largest finite double: a sum, product or
    quotient of doubles whose exact value is at most this in absolute value
    does not overflow. *)
Definition MAX_VALUE : R := (2 - / 2 ^ 52) * 2 ^ 1023.

(** [x] is a finite number between [lo] and [hi]. *)
Definition between (lo hi : R) (x : number) : Prop :=
  exists r, x = Num r /\ (lo <= r <= hi)%R.

End JS.

Declare Scope js_scope.
Delimit Scope js_scope with js.
Bind Scope js_scope with JS.number.
Infix "+" := JS.add : js_scope.
Infix "-" := JS.sub : js_scope.
Infix "*" := JS.mul : js_scope.
Infix "/" := JS.div : js_scope.
Infix "<?" := JS.lt : js_scope.
Infix ">?" := JS.gt : js_scope.

(** Decimal rendering of an integer in a template string. *)
Definition Z_to_string (z : Z) : string := NilZero.string_of_int (Z.to_int z).

(** ['0'.repeat(64)] *)
Definition zeros64 : string :=
  "0000000000000000000000000000000000000000000000000000000000000000".

(* ====================================================================== *)
(** * Values shared by the registry and the server *)
(* ====================================================================== *)

(** A JavaScript value as [JSON.stringify] sees it. *)
Inductive json : Type :=
| JUndefined
| JNull
| JBool (b : bool)
| JNum (n : JS.number)
| JStr (s : string)
| JObj (fields : list (string * json)).

(** An optional string property ([undefined] when absent). *)
Definition JOptStr (s : option string) : json :=
  match s with Some v => JStr v | None => JUndefined end.

(** Truthiness of an optional string: [undefined] and the empty string are falsy. *)
Definition truthy_string (s : option string) : bool :=
  match s with
  | Some v => negb (String.eqb v "")
  | None => false
  end.

(** [JSON.stringify] and [crypto.createHash('sha256').update(s).digest('hex')]. *)
Class Crypto : Type := {
  JSON_stringify : json -> string;
  sha256_hex : string -> string
}.

(** ** [Map<string, V>]: keys in insertion order *)

Section JSMap.
Variable V : Type.

Definition Map : Type := list (string * V).

(** [m.set(k, v)]: an existing key keeps its position. *)
Fixpoint Map_set (m : Map) (k : string) (v : V) : Map :=
  match m with
  | [] => [(k, v)]
  | (k', v') :: m' =>
      if String.eqb k' k then (k', v) :: m' else (k', v') :: Map_set m' k v
  end.

Fixpoint Map_get (m : Map) (k : string) : option V :=
  match m with
  | [] => None
  | (k', v') :: m' => if String.eqb k' k then Some v' else Map_get m' k
  end.

Definition Map_values (m : Map) : list V := map snd m.
Definition Map_keys (m : Map) : list string := map fst m.
Definition Map_size (m : Map) : nat := List.length m.
End JSMap.

(** ** Computations that mutate an object and may throw *)

Inductive outcome (A : Type) : Type :=
| Return (a : A)
| Throw (message : string).
Arguments Throw {A} message.

(** A method of an object with state [S]: what it returns or throws, and the
    object afterwards.  Mutations made before a throw stay. *)
Definition M (S A : Type) : Type := S -> outcome A * S.

Definition ret {S A : Type} (a : A) : M S A := fun s => (Return a, s).
Definition throw {S A : Type} (message : string) : M S A := fun s => (Throw message, s).
Definition bind {S A B : Type} (c : M S A) (k : A -> M S B) : M S B :=
  fun s =>
    match c s with
    | (Return a, s') => k a s'
    | (Throw message, s') => (Throw message, s')
    end.
Definition get {S : Type} : M S S := fun s => (Return s, s).
Definition modify {S : Type} (f : S -> S) : M S unit := fun s => (Return tt, f s).

Notation "x <- c ;; k" := (bind c (fun x => k))
  (at level 61, c at next level, right associativity).
Notation "c ;; k" := (bind c (fun _ => k))
  (at level 61, right associativity).

Definition threw {A S : Type} (r : outcome A * S) : bool :=
  match fst r with Throw _ => true | Return _ => false end.

(** ** Phase states, triads and ledger entries *)

Record TrigState : Type := {
  theta : JS.number;
  amplitude : JS.number;
  phase : JS.number;
  timestamp : Z
}.

Record TrigTriad : Type := {
  jolt : JS.number;
  observer : JS.number;
  vhitzee : JS.number
}.

Inductive EntryType : Type :=
| PHASE_AGGREGATE
| GROUP_COHERENCE
| PHASE_REVOCATION.

Definition EntryType_name (t : EntryType) : string :=
  match t with
  | PHASE_AGGREGATE => "PHASE_AGGREGATE"
  | GROUP_COHERENCE => "GROUP_COHERENCE"
  | PHASE_REVOCATION => "PHASE_REVOCATION"
  end.

Record LedgerEntry : Type := {
  entry_id : string;
  entry_type : EntryType;
  created_at : Z;
  payload : json;
  prev_hash : string;
  hash : string
}.

Definition with_hash (e : LedgerEntry) (h : string) : LedgerEntry :=
  {| entry_id := entry_id e; entry_type := entry_type e; created_at := created_at e;
     payload := payload e; prev_hash := prev_hash e; hash := h |}.

Definition with_payload (e : LedgerEntry) (p : json) : LedgerEntry :=
  {| entry_id := entry_id e; entry_type := entry_type e; created_at := created_at e;
     payload := p; prev_hash := prev_hash e; hash := hash e |}.

(** The object [computeHash] serialises: the entry without its [hash]. *)
Definition canonical (e : LedgerEntry) : json :=
  JObj [ ("entry_id", JStr (entry_id e));
         ("entry_type", JStr (EntryType_name (entry_type e)));
         ("created_at", JNum (JS.of_Z (created_at e)));
         ("payload", payload e);
         ("prev_hash", JStr (prev_hash e)) ].

Definition computeHash `{Crypto} (e : LedgerEntry) : string :=
  sha256_hex (JSON_stringify (canonical e)).

(** What [console.error] prints during a verification. *)
Inductive console_line : Type :=
| Integrity_violation_at_entry (i : nat)
| Hash_mismatch_at_entry (i : nat).

(** [interpretCoherence], and the [status] chain of the server. *)
Definition interpretCoherence (synchrony : JS.number) : string :=
  if (synchrony >? JS.Num 0.8)%js then "COLLECTIVE_COIL_ENGAGED"
  else if (synchrony >? JS.Num 0.6)%js then "HIGH_COHERENCE"
  else if (synchrony >? JS.Num 0.4)%js then "MODERATE_COHERENCE"
  else "LOW_COHERENCE".

(** The three group metrics over a list of states, as both
    [updateGroupCoherence] functions compute them:
    (mean_theta, phase_variance, synchrony_index). *)
Definition coherence_of (groupNodes : list TrigState) : JS.number * JS.number * JS.number :=
  let sin_sum := fold_left (fun sum s => (sum + JS.Math_sin (theta s))%js) groupNodes (JS.Num 0) in
  let cos_sum := fold_left (fun sum s => (sum + JS.Math_cos (theta s))%js) groupNodes (JS.Num 0) in
  let mean_theta := JS.Math_atan2 sin_sum cos_sum in
  let deviations :=
    List.map (fun s =>
                let diff := (theta s - mean_theta)%js in
                JS.Math_min (JS.Math_abs diff) (JS.Num 2 * JS.Math_PI - JS.Math_abs diff)%js)
             groupNodes in
  let phase_variance :=
    (fold_left (fun sum d => (sum + d * d)%js) deviations (JS.Num 0)
     / JS.of_nat (List.length deviations))%js in
  let synchrony_index := (JS.Num 1.0 / (JS.Num 1.0 + phase_variance))%js in
  (mean_theta, phase_variance, synchrony_index).

(* ====================================================================== *)
(** * [src/core/trigonometric_fpt.ts] *)
(* ====================================================================== *)

Module Core.

(** ** [TrigonometricProcessor] *)

Record TrigonometricProcessor : Type := {
  epsilonBase : JS.number;
  damping : JS.number
}.

(** [constructor(epsilonBase = 0.0417, damping = 0.1)] *)
Definition new_TrigonometricProcessor (eps damp : option JS.number) : TrigonometricProcessor :=
  {| epsilonBase := match eps with Some e => e | None => JS.Num 0.0417 end;
     damping := match damp with Some d => d | None => JS.Num 0.1 end |}.

Definition computeTangent (totalPhase amplitude : JS.number) : JS.number :=
  let cos_val := (amplitude * JS.Math_cos totalPhase)%js in
  let sin_val := (amplitude * JS.Math_sin totalPhase)%js in
  if (JS.Math_abs cos_val <? JS.Num 1e-10)%js
  then (if (sin_val >? JS.Num 0)%js then JS.PosInf else JS.NegInf)
  else (sin_val / cos_val)%js.

Definition computeTriad (state : TrigState) : TrigTriad :=
  let totalPhase := (theta state + phase state)%js in
  {| jolt := (amplitude state * JS.Math_sin totalPhase)%js;
     observer := (amplitude state * JS.Math_cos totalPhase)%js;
     vhitzee := computeTangent totalPhase (amplitude state) |}.

(** The [opposition_penalty] constant of [computeVitality]. *)
Definition opposition_penalty (triad : TrigTriad) : JS.number :=
  JS.Math_min (JS.Math_abs (vhitzee triad) / JS.Num 10.0)%js (JS.Num 0.3).

Definition computeVitality (triad : TrigTriad) : JS.number :=
  let jolt_norm := JS.Math_min (JS.Math_abs (jolt triad)) (JS.Num 1.0) in
  let observer_norm := JS.Math_min (JS.Math_abs (observer triad)) (JS.Num 1.0) in
  let vitality_raw :=
    (JS.Num 0.6 * observer_norm + JS.Num 0.4 * jolt_norm - opposition_penalty triad)%js in
  JS.Math_max (JS.Num 0.5) (JS.Math_min (JS.Num 1.5) (vitality_raw + JS.Num 0.5)%js).


Record PhasePacket : Type := {
  packet_version : string;
  session_id : string;
  node_id : string;
  group_id : option string;
  state : TrigState;
  triad : TrigTriad;
  vitality : JS.number;
  epsilon_d : JS.number;
  snh_digest : string;
  packet_created_at : Z
}.

(** [now] is the [Date.now()] reading. *)
Definition createPhasePacket (p : TrigonometricProcessor) (now : Z)
    (state : TrigState) (nodeId sessionId snhDigest : string) (groupId : option string)
  : PhasePacket :=
  let triad := computeTriad state in
  let vitality := computeVitality triad in
  let epsilon_d := (epsilonBase p * vitality)%js in
  {| packet_version := "1.0.0-trig";
     session_id := sessionId;
     node_id := nodeId;
     group_id := groupId;
     state := state;
     triad := triad;
     vitality := vitality;
     epsilon_d := epsilon_d;
     snh_digest := snhDigest;
     packet_created_at := now |}.

(** ** Sovereign neurodata header *)

Inductive RetentionMode : Type := ephemeral | bounded | indefinite.
Inductive RevocationPolicy : Type := stop_future_use | delete_raw | keep_aggregates.
Inductive NeurodataClass : Type := raw | windowed | aggregate.
Inductive SharingLevel : Type := local_only | group_resonance | research_aggregate.

Record ConsentSpec : Type := {
  scope : list string;
  retention_mode : RetentionMode;
  revocation_policy : RevocationPolicy;
  prohibited : list string
}.

Record SovereignNeurodataHeader : Type := {
  snh_version : string;
  snh_session_id : string;
  consent : ConsentSpec;
  neurodata_class : NeurodataClass;
  sharing_level : SharingLevel;
  snh_created_at : Z;
  revocation_token : option string
}.

Definition NeurodataClass_eqb (a b : NeurodataClass) : bool :=
  match a, b with
  | raw, raw | windowed, windowed | aggregate, aggregate => true
  | _, _ => false
  end.

(** ** [SolitonRegistry] *)

Record GroupPhaseState : Type := {
  gps_group_id : string;
  node_states : Map TrigState;
  mean_theta : JS.number;
  phase_variance : JS.number;
  synchrony_index : JS.number;
  gps_timestamp : Z
}.

Record SolitonRegistry : Type := {
  ledger : list LedgerEntry;
  nodeStates : Map TrigState;
  groupStates : Map GroupPhaseState;
  (** the events handed to [emit], oldest first *)
  emitted : list (string * LedgerEntry)
}.

(** The clock and random readings of one [logPhasePacket] call, in the order
    the call takes them. *)
Record Readings : Type := {
  phase_now : Z;          (* Date.now() of the phase entry id *)
  phase_rand : string;    (* Math.random().toString(36).substr(2, 9) *)
  group_now : Z;          (* Date.now() of the group state *)
  coherence_now : Z;      (* Date.now() of the coherence entry id *)
  coherence_rand : string
}.

Section Registry.
Context `{Crypto}.

Definition createGenesisEntry (now : Z) : LedgerEntry :=
  let genesis :=
    {| entry_id := "genesis-north-001";
       entry_type := PHASE_AGGREGATE;
       created_at := now;
       payload := JObj [ ("message", JStr "North Star Seed Node - Geometric Witness Activated");
                         ("designation", JStr "Nᵒᵣᵗʰ‑001");
                         ("kernel", JStr "Ił7");
                         ("trigonometric", JBool true) ];
       prev_hash := zeros64;
       hash := "" |} in
  with_hash genesis (computeHash genesis).

(** [new SolitonRegistry()] *)
Definition new_SolitonRegistry (now : Z) : SolitonRegistry :=
  {| ledger := [createGenesisEntry now];
     nodeStates := [];
     groupStates := [];
     emitted := [] |}.

Definition ledger_push (e : LedgerEntry) : M SolitonRegistry unit :=
  modify (fun r => {| ledger := (ledger r ++ [e])%list; nodeStates := nodeStates r;
                      groupStates := groupStates r; emitted := emitted r |}).

Definition nodeStates_set (k : string) (v : TrigState) : M SolitonRegistry unit :=
  modify (fun r => {| ledger := ledger r; nodeStates := Map_set (nodeStates r) k v;
                      groupStates := groupStates r; emitted := emitted r |}).

Definition groupStates_set (k : string) (v : GroupPhaseState) : M SolitonRegistry unit :=
  modify (fun r => {| ledger := ledger r; nodeStates := nodeStates r;
                      groupStates := Map_set (groupStates r) k v; emitted := emitted r |}).

Definition emit (event : string) (e : LedgerEntry) : M SolitonRegistry unit :=
  modify (fun r => {| ledger := ledger r; nodeStates := nodeStates r;
                      groupStates := groupStates r;
                      emitted := (emitted r ++ [(event, e)])%list |}).

(** [this.ledger[this.ledger.length - 1].hash]: reading [hash] of [undefined]
    throws a TypeError. *)
Definition last_hash : M SolitonRegistry string :=
  r <- get ;;
  match nth_error (ledger r) (List.length (ledger r) - 1) with
  | Some e => ret (hash e)
  | None => throw "TypeError: Cannot read properties of undefined (reading 'hash')"
  end.

Definition validateConsent (snh : SovereignNeurodataHeader) : bool :=
  let allowedScopes := ["group_resonance_aggregate"; "research_aggregate"] in
  existsb (fun s => existsb (String.eqb s) allowedScopes) (scope (consent snh)).

(** The [entry] object of [logGroupCoherence], [tail] being the hash of the
    last entry of the ledger. *)
Definition coherence_entry (rd : Readings) (groupState : GroupPhaseState) (tail : string)
  : LedgerEntry :=
  let entry :=
    {| entry_id := "coherence-" ++ Z_to_string (coherence_now rd) ++ "-" ++ coherence_rand rd;
       entry_type := GROUP_COHERENCE;
       created_at := gps_timestamp groupState;
       payload := JObj [ ("group_id", JStr (gps_group_id groupState));
                         ("node_count", JNum (JS.of_nat (Map_size (node_states groupState))));
                         ("mean_theta", JNum (mean_theta groupState));
                         ("phase_variance", JNum (phase_variance groupState));
                         ("synchrony_index", JNum (synchrony_index groupState));
                         ("interpretation",
                          JStr (interpretCoherence (synchrony_index groupState))) ];
       prev_hash := tail;
       hash := "" |} in
  with_hash entry (computeHash entry).

Definition logGroupCoherence (rd : Readings) (groupState : GroupPhaseState)
  : M SolitonRegistry unit :=
  tail <- last_hash ;;
  let entry := coherence_entry rd groupState tail in
  ledger_push entry ;;
  emit "coherence_logged" entry.

Definition updateGroupCoherence (rd : Readings) (groupId : string) : M SolitonRegistry unit :=
  r <- get ;;
  (* this.nodeStates.forEach((state, nodeId) => groupNodes.push(state)) *)
  let groupNodes := Map_values (nodeStates r) in
  if Nat.eqb (List.length groupNodes) 0 then ret tt
  else
    let '(mean_theta, phase_variance, synchrony_index) := coherence_of groupNodes in
    let groupState :=
      {| gps_group_id := groupId;
         node_states := List.filter (fun _ => true) (nodeStates r);
         mean_theta := mean_theta;
         phase_variance := phase_variance;
         synchrony_index := synchrony_index;
         gps_timestamp := group_now rd |} in
    groupStates_set groupId groupState ;;
    logGroupCoherence rd groupState.

(** The [entry] object of [logPhasePacket], [tail] being the hash of the last
    entry of the ledger. *)
Definition phase_entry (rd : Readings) (packet : PhasePacket) (tail : string) : LedgerEntry :=
  let entry :=
    {| entry_id := "phase-" ++ Z_to_string (phase_now rd) ++ "-" ++ phase_rand rd;
       entry_type := PHASE_AGGREGATE;
       created_at := packet_created_at packet;
       payload := JObj [ ("session_id", JStr (session_id packet));
                         ("node_id", JStr (node_id packet));
                         ("group_id", JOptStr (group_id packet));
                         ("theta", JNum (theta (state packet)));
                         ("amplitude", JNum (amplitude (state packet)));
                         ("phase", JNum (phase (state packet)));
                         ("jolt", JNum (jolt (triad packet)));
                         ("observer", JNum (observer (triad packet)));
                         ("vhitzee", JNum (vhitzee (triad packet)));
                         ("vitality", JNum (vitality packet));
                         ("epsilon_d", JNum (epsilon_d packet));
                         ("snh_digest", JStr (snh_digest packet)) ];
       prev_hash := tail;
       hash := "" |} in
  with_hash entry (computeHash entry).

Definition logPhasePacket (rd : Readings) (packet : PhasePacket) (snh : SovereignNeurodataHeader)
  : M SolitonRegistry unit :=
  (* Validate consent *)
  (if negb (validateConsent snh) then throw "Consent validation failed" else ret tt) ;;
  (* Reject raw data *)
  (if NeurodataClass_eqb (neurodata_class snh) raw
   then throw "Raw neurodata cannot be logged to registry" else ret tt) ;;
  tail <- last_hash ;;
  let entry := phase_entry rd packet tail in
  ledger_push entry ;;
  (* Update node state *)
  nodeStates_set (node_id packet) (state packet) ;;
  (* Update group state if applicable *)
  (match group_id packet with
   | Some g => if truthy_string (group_id packet) then updateGroupCoherence rd g else ret tt
   | None => ret tt
   end) ;;
  emit "phase_logged" entry.

Definition getLedger (r : SolitonRegistry) : list LedgerEntry := ledger r.
Definition getGroupStates (r : SolitonRegistry) : Map GroupPhaseState := groupStates r.

(** The loop of [verifyIntegrity] from index [i], [prevEntry] being entry [i - 1]. *)
Fixpoint verify_from (i : nat) (prevEntry : LedgerEntry) (rest : list LedgerEntry)
  : bool * list console_line :=
  match rest with
  | [] => (true, [])
  | entry :: rest' =>
      if negb (String.eqb (prev_hash entry) (hash prevEntry))
      then (false, [Integrity_violation_at_entry i])
      else if negb (String.eqb (hash entry) (computeHash entry))
      then (false, [Hash_mismatch_at_entry i])
      else verify_from (S i) entry rest'
  end.

(** [verifyIntegrity()]: the returned boolean and the console output. *)
Definition verifyIntegrity_of (l : list LedgerEntry) : bool * list console_line :=
  match l with
  | [] => (true, [])
  | first :: rest => verify_from 1 first rest
  end.

Definition verifyIntegrity (r : SolitonRegistry) : bool * list console_line :=
  verifyIntegrity_of (ledger r).

(** States of a registry: constructed, then any sequence of [logPhasePacket]
    calls, failed ones included. *)
Inductive reachable : SolitonRegistry -> Prop :=
| reachable_new (now : Z) : reachable (new_SolitonRegistry now)
| reachable_log (rd : Readings) (packet : PhasePacket) (snh : SovereignNeurodataHeader)
    (r : SolitonRegistry) :
    reachable r -> reachable (snd (logPhasePacket rd packet snh r)).

End Registry.

End Core.

(* ====================================================================== *)
(** * The enhanced server: [SimplifiedTrigFPT] and the route handlers *)
(* ====================================================================== *)

Module Server.

(** Truthiness of a request-body property. *)
Definition json_truthy (v : json) : bool :=
  match v with
  | JUndefined | JNull => false
  | JBool b => b
  | JNum n => JS.truthy n
  | JStr s => negb (String.eqb s "")
  | JObj _ => true
  end.

(** ** The inlined processor *)

(** The [bands] object: the three properties the processor reads. *)
Record Bands : Type := {
  alpha : option JS.number;
  theta_band : option JS.number;   (* bands.theta *)
  gamma : option JS.number
}.

Definition eegToPhaseState (now : Z) (bands : Bands) : TrigState :=
  let alpha := JS.or_default (alpha bands) (JS.Num 0) in
  let theta_band := JS.or_default (theta_band bands) (JS.Num 0) in
  let gamma := JS.or_default (gamma bands) (JS.Num 0) in
  let theta :=
    ((alpha * JS.Num 0.5 + gamma * JS.Num 1.0 + theta_band * JS.Num 1.5) * JS.Math_PI)%js in
  let amplitude := (JS.Math_sqrt (alpha + gamma) * JS.Num 0.8 + JS.Num 0.5)%js in
  {| theta := theta; amplitude := amplitude; phase := JS.Num 0; timestamp := now |}.

Definition computeTriad (state : TrigState) : TrigTriad :=
  let totalPhase := (theta state + phase state)%js in
  let jolt := (amplitude state * JS.Math_sin totalPhase)%js in
  let observer := (amplitude state * JS.Math_cos totalPhase)%js in
  let cos_val := (amplitude state * JS.Math_cos totalPhase)%js in
  let vhitzee :=
    if (JS.Math_abs cos_val <? JS.Num 1e-10)%js
    then (if (jolt >? JS.Num 0)%js then JS.PosInf else JS.NegInf)
    else (jolt / cos_val)%js in
  {| jolt := jolt; observer := observer; vhitzee := vhitzee |}.

(** The [opposition_penalty] constant of [computeVitality]. *)
Definition opposition_penalty (triad : TrigTriad) : JS.number :=
  if JS.isFinite (vhitzee triad)
  then JS.Math_min (JS.Math_abs (vhitzee triad) / JS.Num 10)%js (JS.Num 0.3)
  else JS.Num 0.3.

Definition computeVitality (triad : TrigTriad) : JS.number :=
  let jolt_norm := JS.Math_min (JS.Math_abs (jolt triad)) (JS.Num 1.0) in
  let observer_norm := JS.Math_min (JS.Math_abs (observer triad)) (JS.Num 1.0) in
  let vitality_raw :=
    (JS.Num 0.6 * observer_norm + JS.Num 0.4 * jolt_norm - opposition_penalty triad)%js in
  JS.Math_max (JS.Num 0.5) (JS.Math_min (JS.Num 1.5) (vitality_raw + JS.Num 0.5)%js).

Definition getRecommendation (triad : TrigTriad) : string :=
  if negb (JS.isFinite (vhitzee triad)) || (JS.Math_abs (vhitzee triad) >? JS.Num 3)%js
  then "protect"
  else if (JS.Math_abs (observer triad) >? JS.Num 0.7)%js
          && (JS.Math_abs (vhitzee triad) <? JS.Num 1)%js
  then "boost_ok"
  else "neutral".

Record OppositionFlags : Type := {
  high_stress : bool;
  near_singularity : bool;
  recommendation : string
}.

Record PhasePacket : Type := {
  packet_version : string;
  session_id : string;
  node_id : string;
  group_id : option string;
  state : TrigState;
  triad : TrigTriad;
  vitality : JS.number;
  epsilon_d : JS.number;
  opposition_flags : OppositionFlags;
  snh_digest : string;
  packet_created_at : Z
}.

(** The functions of [this.processor] are arrow functions written in the
    constructor: [this] inside them is the [SimplifiedTrigFPT] instance.  Its
    own properties are [processor] and [registry], and the one method it
    inherits from the class is [processAndLog]. *)
Definition instance_methods : list string := ["processAndLog"].

(** [this.name(...)], [result] being what the function of that name in
    [this.processor] returns: calling a property the instance does not have
    throws a TypeError. *)
Definition call_this {S A : Type} (name : string) (result : A) : M S A :=
  if existsb (String.eqb name) instance_methods
  then ret result
  else throw ("this." ++ name ++ " is not a function").

(** [now_state] and [now_packet] are the two [Date.now()] readings. *)
Definition createPhasePacket {S : Type} (now_state now_packet : Z) (bands : Bands)
    (nodeId sessionId snhDigest : string) (groupId : option string) : M S PhasePacket :=
  let state := eegToPhaseState now_state bands in
  triad <- call_this "computeTriad" (computeTriad state) ;;
  vitality <- call_this "computeVitality" (computeVitality triad) ;;
  recommendation <- call_this "getRecommendation" (getRecommendation triad) ;;
  ret {| packet_version := "1.0.0-trig";
         session_id := sessionId;
         node_id := nodeId;
         group_id := groupId;
         state := state;
         triad := triad;
         vitality := vitality;
         epsilon_d := (JS.Num 0.0417 * vitality)%js;
         opposition_flags :=
           {| high_stress := (JS.Math_abs (vhitzee triad) >? JS.Num 3)%js;
              near_singularity := negb (JS.isFinite (vhitzee triad));
              recommendation := recommendation |};
         snh_digest := snhDigest;
         packet_created_at := now_packet |}.

(** ** The inlined registry *)

Record GroupState : Type := {
  gs_group_id : string;
  node_count : nat;
  mean_theta : JS.number;
  phase_variance : JS.number;
  synchrony_index : JS.number;
  status : string;
  gs_timestamp : Z
}.

Record Registry : Type := {
  ledger : list LedgerEntry;
  nodeStates : Map TrigState;
  groupStates : Map GroupState
}.

Definition new_Registry : Registry :=
  {| ledger := []; nodeStates := []; groupStates := [] |}.

(** The readings of one [logPhasePacket] call. *)
Record Readings : Type := {
  phase_now : Z;          (* Date.now() of the entry id *)
  phase_rand : string;    (* Math.random().toString(36).substr(2, 9) *)
  group_now : Z           (* Date.now() of the group state *)
}.

Section Registry.
Context `{Crypto}.

Definition updateGroupCoherence (rd : Readings) (groupId : string) : M Registry unit :=
  r <- get ;;
  let nodes := Map_values (nodeStates r) in
  if Nat.eqb (List.length nodes) 0 then ret tt
  else
    let '(mean_theta, phase_variance, synchrony_index) := coherence_of nodes in
    let status := interpretCoherence synchrony_index in
    modify (fun r =>
      {| ledger := ledger r;
         nodeStates := nodeStates r;
         groupStates :=
           Map_set (groupStates r) groupId
             {| gs_group_id := groupId;
                node_count := List.length nodes;
                mean_theta := mean_theta;
                phase_variance := phase_variance;
                synchrony_index := synchrony_index;
                status := status;
                gs_timestamp := group_now rd |} |}).

(** The [entry] object of [logPhasePacket] on the ledger [l]. *)
Definition phase_entry (rd : Readings) (packet : PhasePacket) (l : list LedgerEntry)
  : LedgerEntry :=
  let entry :=
    {| entry_id := "phase-" ++ Z_to_string (phase_now rd) ++ "-" ++ phase_rand rd;
       entry_type := PHASE_AGGREGATE;
       created_at := packet_created_at packet;
       payload :=
         JObj [ ("session_id", JStr (session_id packet));
                ("node_id", JStr (node_id packet));
                ("group_id", JOptStr (group_id packet));
                ("theta", JNum (theta (state packet)));
                ("amplitude", JNum (amplitude (state packet)));
                ("jolt", JNum (jolt (triad packet)));
                ("observer", JNum (observer (triad packet)));
                ("vhitzee", if JS.isFinite (vhitzee (triad packet))
                            then JNum (vhitzee (triad packet)) else JStr "INF");
                ("vitality", JNum (vitality packet));
                ("epsilon_d", JNum (epsilon_d packet));
                ("opposition",
                 JObj [ ("high_stress", JBool (high_stress (opposition_flags packet)));
                        ("near_singularity",
                         JBool (near_singularity (opposition_flags packet)));
                        ("recommendation",
                         JStr (recommendation (opposition_flags packet))) ]) ];
       prev_hash :=
         (* this.ledger.length > 0 ? this.ledger[this.ledger.length - 1].hash
                                   : '0'.repeat(64) *)
         match nth_error l (List.length l - 1) with
         | Some e => hash e
         | None => zeros64
         end;
       hash := "" |} in
  with_hash entry (computeHash entry).

Definition logPhasePacket (rd : Readings) (packet : PhasePacket) : M Registry unit :=
  r <- get ;;
  let entry := phase_entry rd packet (ledger r) in
  modify (fun r => {| ledger := (ledger r ++ [entry])%list; nodeStates := nodeStates r;
                      groupStates := groupStates r |}) ;;
  modify (fun r => {| ledger := ledger r;
                      nodeStates := Map_set (nodeStates r) (node_id packet) (state packet);
                      groupStates := groupStates r |}) ;;
  match group_id packet with
  | Some g => if truthy_string (group_id packet) then updateGroupCoherence rd g else ret tt
  | None => ret tt
  end.

(** [SimplifiedTrigFPT.processAndLog] *)
Definition processAndLog (now_state now_packet : Z) (rd : Readings) (bands : Bands)
    (nodeId sessionId snhDigest : string) (groupId : option string)
  : M Registry PhasePacket :=
  packet <- createPhasePacket now_state now_packet bands nodeId sessionId snhDigest groupId ;;
  logPhasePacket rd packet ;;
  ret packet.

Inductive reachable : Registry -> Prop :=
| reachable_new : reachable new_Registry
| reachable_log (rd : Readings) (packet : PhasePacket) (r : Registry) :
    reachable r -> reachable (snd (logPhasePacket rd packet r)).

End Registry.

(** ** [POST /revoke] *)

(** The process: the geometric registry and the entries of [ledger.json]. *)
Record ServerState : Type := {
  geometricFPT : Registry;
  ledger_json : list json
}.

Record Response : Type := {
  status_code : nat;
  body : json
}.

(** [app.post('/revoke', ...)] on the request body's [revocation_token] and
    [session_id]. *)
Definition post_revoke (revocation_token session_id : json) : M ServerState Response :=
  if negb (json_truthy revocation_token)
  then ret {| status_code := 400;
              body := JObj [ ("error", JStr "Revocation token required") ] |}
  else
    (* In full implementation: find and mark entries as revoked.
       For now, just acknowledge. *)
    ret {| status_code := 200;
           body := JObj [ ("status", JStr "revoked");
                          ("message", JStr "Revocation honored");
                          ("session_id", session_id) ] |}.

(** ** The other routes *)

(** [Number.prototype.toFixed(digits)]. *)
Class NumberFormat : Type := {
  toFixed : JS.number -> nat -> string
}.

(** A WebSocket client: its [readyState] and the messages sent to it. *)
Record Client : Type := {
  readyState : nat;
  received : list string
}.

(** [WebSocket.OPEN] *)
Definition WebSocket_OPEN : nat := 1.

(** The process with its WebSocket server. *)
Record Process : Type := {
  server : ServerState;
  clients : list Client
}.

(** A method of the geometric registry, run inside the process. *)
Definition on_registry {A : Type} (c : M Registry A) : M Process A :=
  fun p =>
    let '(out, r') := c (geometricFPT (server p)) in
    (out, {| server := {| geometricFPT := r'; ledger_json := ledger_json (server p) |};
             clients := clients p |}).

(** [try { ... } catch (error) { res.status(500).json({ error: error.message }) }] *)
Definition catch_500 {S : Type} (c : M S Response) : M S Response :=
  fun s =>
    match c s with
    | (Return response, s') => (Return response, s')
    | (Throw message, s') =>
        (Return {| status_code := 500; body := JObj [ ("error", JStr message) ] |}, s')
    end.

(** [x || d] on a request-body property. *)
Definition json_or (v d : json) : json := if json_truthy v then v else d.

(** [typeof v !== 'object'] *)
Definition not_an_object (v : json) : bool :=
  match v with
  | JObj _ | JNull => false
  | _ => true
  end.

(** [app.post('/aggregate', ...)] on the request body's properties; [now] is
    the [Date.now()] reading.  [ledger_json] is what [ledger.json] parses to,
    the empty list when the file cannot be read. *)
Definition post_aggregate (now : Z) (vitality node_id snh_digest raw_eeg eeg_samples : json)
  : M Process Response :=
  if negb (json_truthy vitality) || not_an_object vitality
  then ret {| status_code := 400;
              body := JObj [ ("error", JStr "Invalid vitality aggregate") ] |}
  else if json_truthy raw_eeg || json_truthy eeg_samples
  then ret {| status_code := 403;
              body := JObj [ ("error", JStr "Raw EEG data rejected");
                             ("message",
                              JStr "This node only witnesses aggregates, not raw data") ] |}
  else
    let entry := JObj [ ("timestamp", JNum (JS.of_Z now));
                        ("node_id", json_or node_id (JStr "anonymous"));
                        ("vitality", vitality);
                        ("snh_digest", json_or snh_digest (JStr "none")) ] in
    p <- get ;;
    let ledger := (ledger_json (server p) ++ [entry])%list in
    modify (fun p => {| server := {| geometricFPT := geometricFPT (server p);
                                     ledger_json := ledger |};
                        clients := clients p |}) ;;
    ret {| status_code := 200;
           body := JObj [ ("status", JStr "witnessed");
                          ("entry_id", JNum (JS.sub (JS.of_nat (List.length ledger))
                                                    (JS.Num 1))) ] |}.

Section Routes.
Context `{Crypto} `{NumberFormat}.

(** [broadcastPhaseUpdate(packet)] *)
Definition broadcastPhaseUpdate (packet : PhasePacket) : M Process unit :=
  let message :=
    JSON_stringify
      (JObj [ ("type", JStr "PHASE_UPDATE");
              ("node_id", JStr (node_id packet));
              ("theta", JNum (theta (state packet)));
              ("amplitude", JNum (amplitude (state packet)));
              ("vitality", JNum (vitality packet));
              ("triad", JObj [ ("jolt", JNum (jolt (triad packet)));
                               ("observer", JNum (observer (triad packet))) ]);
              ("timestamp", JNum (JS.of_Z (packet_created_at packet))) ]) in
  modify (fun p =>
    {| server := server p;
       clients :=
         List.map (fun client =>
                     if Nat.eqb (readyState client) WebSocket_OPEN
                     then {| readyState := readyState client;
                             received := (received client ++ [message])%list |}
                     else client)
                  (clients p) |}).

(** The request body of [POST /aggregate/geometric]; a property is [None]
    when it is missing ([bands] also when it is not an object). *)
Record GeometricRequest : Type := {
  req_bands : option Bands;
  req_node_id : option string;
  req_session_id : option string;
  req_snh_digest : option string;
  req_group_id : option string
}.

(** [app.post('/aggregate/geometric', ...)] *)
Definition post_aggregate_geometric (now_state now_packet : Z) (rd : Readings)
    (req : GeometricRequest) : M Process Response :=
  catch_500
    (match req_bands req with
     | None => ret {| status_code := 400;
                      body := JObj [ ("error", JStr "EEG bands required") ] |}
     | Some bands =>
         if negb (truthy_string (req_node_id req)) || negb (truthy_string (req_session_id req))
         then ret {| status_code := 400;
                     body := JObj [ ("error", JStr "node_id and session_id required") ] |}
         else
           let node_id := match req_node_id req with Some n => n | None => "" end in
           let session_id := match req_session_id req with Some n => n | None => "" end in
           let snh_digest :=
             if truthy_string (req_snh_digest req)
             then match req_snh_digest req with Some d => d | None => "none" end
             else "none" in
           packet <- on_registry (processAndLog now_state now_packet rd bands
                                    node_id session_id snh_digest (req_group_id req)) ;;
           broadcastPhaseUpdate packet ;;
           ret {| status_code := 200;
                  body :=
                    JObj [ ("status", JStr "witnessed_geometric");
                           ("packet",
                            JObj [ ("theta", JNum (theta (state packet)));
                                   ("theta_degrees",
                                    JStr (toFixed (theta (state packet) * JS.Num 180
                                                   / JS.Math_PI)%js 2));
                                   ("amplitude", JNum (amplitude (state packet)));
                                   ("vitality", JNum (vitality packet));
                                   ("epsilon_d", JNum (epsilon_d packet));
                                   ("triad",
                                    JObj [ ("jolt", JStr (toFixed (jolt (triad packet)) 3));
                                           ("observer",
                                            JStr (toFixed (observer (triad packet)) 3));
                                           ("vhitzee",
                                            JStr (if JS.isFinite (vhitzee (triad packet))
                                                  then toFixed (vhitzee (triad packet)) 3
                                                  else "SINGULARITY")) ]);
                                   ("opposition",
                                    JObj [ ("high_stress",
                                            JBool (high_stress (opposition_flags packet)));
                                           ("near_singularity",
                                            JBool (near_singularity (opposition_flags packet)));
                                           ("recommendation",
                                            JStr (recommendation (opposition_flags packet))) ]);
                                   ("created_at",
                                    JNum (JS.of_Z (packet_created_at packet))) ]) ] |}
     end).

(** [app.get('/phase/:node_id', ...)] *)
Definition get_phase (node_id : string) : M Process Response :=
  p <- get ;;
  match Map_get (nodeStates (geometricFPT (server p))) node_id with
  | None => ret {| status_code := 404; body := JObj [ ("error", JStr "Node not found") ] |}
  | Some state =>
      ret {| status_code := 200;
             body :=
               JObj [ ("node_id", JStr node_id);
                      ("state",
                       JObj [ ("theta", JNum (theta state));
                              ("theta_degrees",
                               JStr (toFixed (theta state * JS.Num 180 / JS.Math_PI)%js 2));
                              ("amplitude", JNum (amplitude state));
                              ("phase", JNum (phase state));
                              ("timestamp", JNum (JS.of_Z (timestamp state))) ]) ] |}
  end.

(** [app.get('/coherence/:group_id', ...)] *)
Definition get_coherence (group_id : string) : M Process Response :=
  p <- get ;;
  match Map_get (groupStates (geometricFPT (server p))) group_id with
  | None => ret {| status_code := 404; body := JObj [ ("error", JStr "Group not found") ] |}
  | Some coherence =>
      ret {| status_code := 200;
             body :=
               JObj [ ("group_id", JStr (gs_group_id coherence));
                      ("node_count", JNum (JS.of_nat (node_count coherence)));
                      ("mean_theta", JNum (mean_theta coherence));
                      ("mean_theta_degrees",
                       JStr (toFixed (mean_theta coherence * JS.Num 180 / JS.Math_PI)%js 2));
                      ("phase_variance", JStr (toFixed (phase_variance coherence) 4));
                      ("synchrony_index", JStr (toFixed (synchrony_index coherence) 4));
                      ("status", JStr (status coherence));
                      ("timestamp", JNum (JS.of_Z (gs_timestamp coherence))) ] |}
  end.

(** The body of [GET /ledger/geometric]: [{ entries, count, geometric }]. *)
Record LedgerListing : Type := {
  entries : list LedgerEntry;
  count : nat;
  geometric : bool
}.

(** [app.get('/ledger/geometric', ...)] *)
Definition get_ledger_geometric : M Process LedgerListing :=
  p <- get ;;
  let ledger := ledger (geometricFPT (server p)) in
  ret {| entries := ledger; count := List.length ledger; geometric := true |}.

(** The processes the server passes through: started with a new geometric
    registry and no client, then any sequence of requests to the routes above,
    while WebSocket clients come, go and change state. *)
Inductive served : Process -> Prop :=
| served_start (ledger : list json) :
    served {| server := {| geometricFPT := new_Registry; ledger_json := ledger |};
              clients := [] |}
| served_aggregate (now : Z) (vitality node_id snh_digest raw_eeg eeg_samples : json)
    (p : Process) :
    served p ->
    served (snd (post_aggregate now vitality node_id snh_digest raw_eeg eeg_samples p))
| served_revoke (revocation_token session_id : json) (p : Process) :
    served p ->
    served {| server := snd (post_revoke revocation_token session_id (server p));
              clients := clients p |}
| served_aggregate_geometric (now_state now_packet : Z) (rd : Readings)
    (req : GeometricRequest) (p : Process) :
    served p -> served (snd (post_aggregate_geometric now_state now_packet rd req p))
| served_phase (node_id : string) (p : Process) :
    served p -> served (snd (get_phase node_id p))
| served_coherence (group_id : string) (p : Process) :
    served p -> served (snd (get_coherence group_id p))
| served_ledger_geometric (p : Process) :
    served p -> served (snd (get_ledger_geometric p))
| served_clients (clients : list Client) (p : Process) :
    served p -> served {| server := server p; clients := clients |}.

End Routes.

End Server.

(* ====================================================================== *)
(** * Vocabulary of the statements *)
(* ====================================================================== *)

(** A state whose three components are real numbers. *)
Definition real_state (th a ph : R) (ts : Z) : TrigState :=
  {| theta := JS.Num th; amplitude := JS.Num a; phase := JS.Num ph; timestamp := ts |}.

(** A feature weight of [bands]: absent, or a real between 0 and [B]. *)
Definition feature_within (B : R) (x : option JS.number) : Prop :=
  match x with
  | None => True
  | Some (JS.Num a) => (0 <= a <= B)%R
  | Some _ => False
  end.

(** The chain invariant of a ledger: every entry after the first names the
    hash of its predecessor, and its own hash is the digest of its canonical
    form. *)
Definition chain_invariant `{Crypto} (l : list LedgerEntry) : Prop :=
  forall (i : nat) (entry prevEntry : LedgerEntry),
    (0 < i)%nat ->
    nth_error l i = Some entry ->
    nth_error l (i - 1) = Some prevEntry ->
    prev_hash entry = hash prevEntry /\ hash entry = computeHash entry.

(** The ledger with the payload of entry [i] overwritten in place: no hash is
    recomputed, no other entry is touched. *)
Fixpoint corrupt_payload (i : nat) (p : json) (l : list LedgerEntry) : list LedgerEntry :=
  match l, i with
  | [], _ => []
  | e :: l', O => with_payload e p :: l'
  | e :: l', S i' => e :: corrupt_payload i' p l'
  end.

(** An instance of [Crypto] for the examples: a serialisation that keeps keys
    and strings and writes every number as [#], under the identity digest. *)
Fixpoint demo_stringify (v : json) : string :=
  match v with
  | JUndefined => "undefined"
  | JNull => "null"
  | JBool true => "true"
  | JBool false => "false"
  | JNum _ => "#"
  | JStr s => s
  | JObj fields =>
      "{" ++ (fix members (fs : list (string * json)) : string :=
                match fs with
                | [] => ""
                | (k, x) :: fs' => k ++ ":" ++ demo_stringify x ++ "," ++ members fs'
                end) fields ++ "}"
  end.

Definition demo_crypto : Crypto :=
  {| JSON_stringify := demo_stringify; sha256_hex := fun s => s |}.

(** The header of the repository's demonstration run, and a header that
    declares raw data. *)
Definition demo_snh : Core.SovereignNeurodataHeader :=
  {| Core.snh_version := "1.0.0";
     Core.snh_session_id := "demo-session-geometric-001";
     Core.consent := {| Core.scope := ["group_resonance_aggregate"];
                        Core.retention_mode := Core.bounded;
                        Core.revocation_policy := Core.stop_future_use;
                        Core.prohibited := ["identity_linkage"] |};
     Core.neurodata_class := Core.aggregate;
     Core.sharing_level := Core.group_resonance;
     Core.snh_created_at := 0;
     Core.revocation_token := None |}.

Definition raw_snh : Core.SovereignNeurodataHeader :=
  {| Core.snh_version := "1.0.0";
     Core.snh_session_id := "demo-session-geometric-001";
     Core.consent := Core.consent demo_snh;
     Core.neurodata_class := Core.raw;
     Core.sharing_level := Core.group_resonance;
     Core.snh_created_at := 0;
     Core.revocation_token := None |}.

Definition demo_readings : Core.Readings :=
  {| Core.phase_now := 1; Core.phase_rand := "k3x9q2m1a";
     Core.group_now := 2;
     Core.coherence_now := 3; Core.coherence_rand := "z8w7v6u5t" |}.

Definition server_readings : Server.Readings :=
  {| Server.phase_now := 1; Server.phase_rand := "k3x9q2m1a"; Server.group_now := 2 |}.

(** Two nodes of two different groups. *)
Definition alpha_state : TrigState := real_state 0 1 0 0.
Definition beta_state : TrigState := real_state (PI / 4) 1 0 0.

Definition alpha_packet : Core.PhasePacket :=
  Core.createPhasePacket (Core.new_TrigonometricProcessor None None) 0
    alpha_state "Node_Alpha" "demo-session-geometric-001" "digest" (Some "group-A").

Definition beta_packet : Core.PhasePacket :=
  Core.createPhasePacket (Core.new_TrigonometricProcessor None None) 0
    beta_state "Node_Beta" "demo-session-geometric-001" "digest" (Some "group-B").

(** An entry that names the hash of the last entry of [l], if there is one,
    and carries its own digest. *)
Definition chained_onto `{Crypto} (l : list LedgerEntry) (e : LedgerEntry) : Prop :=
  (forall t, nth_error l (List.length l - 1) = Some t -> prev_hash e = hash t) /\
  hash e = computeHash e.

(** The group state [updateGroupCoherence] builds from the node states [ns]. *)
Definition Core_group_state (rd : Core.Readings) (groupId : string) (ns : Map TrigState)
  : Core.GroupPhaseState :=
  let '(mean_theta, phase_variance, synchrony_index) := coherence_of (Map_values ns) in
  {| Core.gps_group_id := groupId;
     Core.node_states := ns;
     Core.mean_theta := mean_theta;
     Core.phase_variance := phase_variance;
     Core.synchrony_index := synchrony_index;
     Core.gps_timestamp := Core.group_now rd |}.

(** The registry after an accepted [logPhasePacket], [t] being the last entry
    of the ledger before the call. *)
Definition Core_logged `{Crypto} (rd : Core.Readings) (packet : Core.PhasePacket)
    (r : Core.SolitonRegistry) (t : LedgerEntry) : Core.SolitonRegistry :=
  let e := Core.phase_entry rd packet (hash t) in
  let ns := Map_set (Core.nodeStates r) (Core.node_id packet) (Core.state packet) in
  let plain :=
    {| Core.ledger := (Core.ledger r ++ [e])%list;
       Core.nodeStates := ns;
       Core.groupStates := Core.groupStates r;
       Core.emitted := (Core.emitted r ++ [("phase_logged", e)])%list |} in
  match Core.group_id packet with
  | Some g =>
      if truthy_string (Core.group_id packet) then
        let gs := Core_group_state rd g ns in
        let ce := Core.coherence_entry rd gs (hash e) in
        {| Core.ledger := ((Core.ledger r ++ [e]) ++ [ce])%list;
           Core.nodeStates := ns;
           Core.groupStates := Map_set (Core.groupStates r) g gs;
           Core.emitted :=
             ((Core.emitted r ++ [("coherence_logged", ce)]) ++ [("phase_logged", e)])%list |}
      else plain
  | None => plain
  end.


(** Band powers of two nodes. *)
Definition alpha_bands : Server.Bands :=
  {| Server.alpha := Some (JS.Num 0.35);
     Server.theta_band := Some (JS.Num 0.15);
     Server.gamma := Some (JS.Num 0.08) |}.

Definition beta_bands : Server.Bands :=
  {| Server.alpha := Some (JS.Num 0.2);
     Server.theta_band := Some (JS.Num 0.4);
     Server.gamma := None |}.

(** A packet handed to [registry.logPhasePacket] for the state [state]: the
    object [createPhasePacket] describes, its triad, vitality and flags being
    those of the processor's functions, created at time 0. *)
Definition server_packet (state : TrigState) (nodeId sessionId snhDigest : string)
    (groupId : option string) : Server.PhasePacket :=
  let triad := Server.computeTriad state in
  let vitality := Server.computeVitality triad in
  {| Server.packet_version := "1.0.0-trig";
     Server.session_id := sessionId;
     Server.node_id := nodeId;
     Server.group_id := groupId;
     Server.state := state;
     Server.triad := triad;
     Server.vitality := vitality;
     Server.epsilon_d := (JS.Num 0.0417 * vitality)%js;
     Server.opposition_flags :=
       {| Server.high_stress := (JS.Math_abs (vhitzee triad) >? JS.Num 3)%js;
          Server.near_singularity := negb (JS.isFinite (vhitzee triad));
          Server.recommendation := Server.getRecommendation triad |};
     Server.snh_digest := snhDigest;
     Server.packet_created_at := 0 |}.

(** Packets for the states of the two nodes, of two different groups. *)
Definition server_alpha_packet : Server.PhasePacket :=
  server_packet (Server.eegToPhaseState 0 alpha_bands) "Node_Alpha" "s-1" "none"
    (Some "group-A").

Definition server_beta_packet : Server.PhasePacket :=
  server_packet (Server.eegToPhaseState 0 beta_bands) "Node_Beta" "s-1" "none"
    (Some "group-B").

(** The ledger after the demonstration's first packet. *)
Definition demo_ledger : list LedgerEntry :=
  Core.ledger
    (snd (@Core.logPhasePacket demo_crypto demo_readings alpha_packet demo_snh
            (@Core.new_SolitonRegistry demo_crypto 0))).

(** Every [GROUP_COHERENCE] entry of [l] stands right after a
    [PHASE_AGGREGATE] entry. *)
Definition coherence_follows_phase (l : list LedgerEntry) : Prop :=
  forall (i : nat) (e : LedgerEntry),
    nth_error l i = Some e -> entry_type e = GROUP_COHERENCE ->
    exists p, (1 <= i)%nat /\ nth_error l (i - 1) = Some p /\
              entry_type p = PHASE_AGGREGATE.

(** The event name under which the registry emits an entry of each type. *)
Definition event_of (t : EntryType) : string :=
  match t with
  | GROUP_COHERENCE => "coherence_logged"
  | _ => "phase_logged"
  end.

(** The event the registry emits for a ledger entry: its name and the entry. *)
Definition event_for (e : LedgerEntry) : string * LedgerEntry :=
  (event_of (entry_type e), e).

(** A state whose angle is a real number. *)
Definition real_theta (s : TrigState) : Prop := exists th : R, theta s = JS.Num th.

(** A state whose angle is a real number of absolute value at most [B]. *)
Definition angle_within (B : R) (s : TrigState) : Prop :=
  exists th : R, theta s = JS.Num th /\ (Rabs th <= B)%R.


(** An instance of [NumberFormat] for the examples: every number prints as [#]. *)
Definition demo_format : Server.NumberFormat := {| Server.toFixed := fun _ _ => "#" |}.

(** A request of the demonstration, and a process with one open and one
    closed client. *)
Definition demo_request : Server.GeometricRequest :=
  {| Server.req_bands := Some alpha_bands;
     Server.req_node_id := Some "Node_Alpha";
     Server.req_session_id := Some "s-1";
     Server.req_snh_digest := None;
     Server.req_group_id := Some "group-A" |}.

Definition demo_process : Server.Process :=
  {| Server.server := {| Server.geometricFPT := Server.new_Registry;
                         Server.ledger_json := [] |};
     Server.clients := [ {| Server.readyState := 1; Server.received := [] |};
                         {| Server.readyState := 3; Server.received := [] |} ] |}.

(** Case analysis on [if (packet.group_id)]: a truthy id, a falsy one, none. *)
Ltac by_group_id packet :=
  destruct (Core.group_id packet) as [?g |];
  [ match goal with |- context [truthy_string (Some ?g)] =>
      destruct (truthy_string (Some g)) end | ].

(* ====================================================================== *)
(** * Facts about numbers *)
(* ====================================================================== *)

Unset Implicit Arguments.

Section NumberFacts.
Local Open Scope R_scope.

Lemma Rltb_true (a b : R) : a < b -> JS.Rltb a b = true.
Proof. intros Hlt. unfold JS.Rltb. destruct (Rlt_dec a b); [reflexivity | contradiction]. Qed.

Lemma Rltb_false (a b : R) : b <= a -> JS.Rltb a b = false.
Proof. intros Hle. unfold JS.Rltb. destruct (Rlt_dec a b); [lra | reflexivity]. Qed.

Lemma Reqb_false (a b : R) : a <> b -> JS.Reqb a b = false.
Proof. intros Hne. unfold JS.Reqb. destruct (Req_dec_T a b); [contradiction | reflexivity]. Qed.

Lemma Reqb_true (a : R) : JS.Reqb a a = true.
Proof. unfold JS.Reqb. destruct (Req_dec_T a a); [reflexivity | congruence]. Qed.

(** [Number.MAX_VALUE] is above [2 ^ 10]. *)
Lemma MAX_VALUE_ge : 1024 <= JS.MAX_VALUE.
Proof.
  unfold JS.MAX_VALUE.
  assert (Hhigh : 2 ^ 10 <= 2 ^ 1023) by (apply Rle_pow; [lra | lia]).
  assert (Hlow : 1 <= 2 ^ 52) by (apply pow_R1_Rle; lra).
  assert (Hinv : / 2 ^ 52 <= 1).
  { rewrite <- Rinv_1. apply Rinv_le_contravar; lra. }
  assert (Hten : 2 ^ 10 = 1024) by (simpl; lra).
  nra.
Qed.

Lemma div_Num (a b : R) : b <> 0 -> JS.div (JS.Num a) (JS.Num b) = JS.Num (a / b).
Proof. intros Hb. unfold JS.div. now rewrite Reqb_false. Qed.

(** [Math.max(0.5, Math.min(1.5, y))] lands in [[0.5, 1.5]]. *)
Lemma clamp_between (y : R) : 0.5 <= Rmax 0.5 (Rmin 1.5 y) <= 1.5.
Proof.
  split.
  - apply Rmax_l.
  - apply Rmax_lub; [lra | apply Rmin_l].
Qed.

(** [Math.min(Math.abs(x), 1.0)] of a number that is not NaN. *)
Lemma norm_between (x : JS.number) :
  JS.isNaN x = false ->
  exists r, JS.Math_min (JS.Math_abs x) (JS.Num 1.0) = JS.Num r /\ 0 <= r <= 1.
Proof.
  intros Hx. destruct x as [a | | |]; simpl in *; try discriminate.
  - exists (Rmin (Rabs a) 1.0). split; [reflexivity |].
    split.
    + apply Rmin_glb; [apply Rabs_pos | lra].
    + eapply Rle_trans; [apply Rmin_r | lra].
  - exists 1.0. split; [reflexivity | lra].
  - exists 1.0. split; [reflexivity | lra].
Qed.

(** The penalty of the registry's processor: no guard, [Math.min] absorbs the
    infinity. *)
Lemma Core_penalty_between (t : TrigTriad) :
  JS.isNaN (vhitzee t) = false ->
  exists p, Core.opposition_penalty t = JS.Num p /\ 0 <= p <= 0.3.
Proof.
  intros Hv. unfold Core.opposition_penalty.
  destruct (vhitzee t) as [v | | |]; simpl in *; try discriminate.
  - rewrite Reqb_false by lra. simpl.
    exists (Rmin (Rabs v / 10.0) 0.3). split; [reflexivity |].
    split.
    + apply Rmin_glb; [| lra].
      pose proof (Rabs_pos v). lra.
    + apply Rmin_r.
  - rewrite Rltb_false by lra. simpl. exists 0.3. split; [reflexivity | lra].
  - rewrite Rltb_false by lra. simpl. exists 0.3. split; [reflexivity | lra].
Qed.

Lemma Core_penalty_infinite (t : TrigTriad) :
  JS.isNaN (vhitzee t) = false -> JS.isFinite (vhitzee t) = false ->
  Core.opposition_penalty t = JS.Num 0.3.
Proof.
  intros Hv Hf. unfold Core.opposition_penalty.
  destruct (vhitzee t) as [v | | |]; simpl in *; try discriminate;
    now rewrite Rltb_false by lra.
Qed.

(** The penalty of the server's processor: guarded by [isFinite]. *)
Lemma Server_penalty_between (t : TrigTriad) :
  exists p, Server.opposition_penalty t = JS.Num p /\ 0 <= p <= 0.3.
Proof.
  unfold Server.opposition_penalty.
  destruct (vhitzee t) as [v | | |]; simpl.
  - rewrite Reqb_false by lra. simpl.
    exists (Rmin (Rabs v / 10) 0.3). split; [reflexivity |].
    split.
    + apply Rmin_glb; [| lra].
      pose proof (Rabs_pos v). lra.
    + apply Rmin_r.
  - exists 0.3. split; [reflexivity | lra].
  - exists 0.3. split; [reflexivity | lra].
  - exists 0.3. split; [reflexivity | lra].
Qed.

Lemma Server_penalty_infinite (t : TrigTriad) :
  JS.isFinite (vhitzee t) = false -> Server.opposition_penalty t = JS.Num 0.3.
Proof. intros Hf. unfold Server.opposition_penalty. now rewrite Hf. Qed.

(** The weighted sum and the clamp, once the three terms are real. *)
Lemma vitality_clamp (o j p : R) :
  JS.between 0.5 1.5
    (JS.Math_max (JS.Num 0.5)
       (JS.Math_min (JS.Num 1.5)
          (JS.Num 0.6 * JS.Num o + JS.Num 0.4 * JS.Num j - JS.Num p + JS.Num 0.5)%js)).
Proof.
  simpl. eexists. split; [reflexivity | apply clamp_between].
Qed.

Lemma Core_vitality_between (t : TrigTriad) :
  JS.isNaN (jolt t) = false -> JS.isNaN (observer t) = false ->
  JS.isNaN (vhitzee t) = false ->
  JS.between 0.5 1.5 (Core.computeVitality t).
Proof.
  intros Hj Ho Hv. unfold Core.computeVitality.
  destruct (norm_between _ Hj) as (j & -> & _).
  destruct (norm_between _ Ho) as (o & -> & _).
  destruct (Core_penalty_between _ Hv) as (p & -> & _).
  apply vitality_clamp.
Qed.

Lemma Server_vitality_between (t : TrigTriad) :
  JS.isNaN (jolt t) = false -> JS.isNaN (observer t) = false ->
  JS.between 0.5 1.5 (Server.computeVitality t).
Proof.
  intros Hj Ho. unfold Server.computeVitality.
  destruct (norm_between _ Hj) as (j & -> & _).
  destruct (norm_between _ Ho) as (o & -> & _).
  destruct (Server_penalty_between t) as (p & -> & _).
  apply vitality_clamp.
Qed.

End NumberFacts.

(* ====================================================================== *)
(** * The triad of a state *)
(* ====================================================================== *)

Section TriadFacts.
Local Open Scope R_scope.

(** The server's inlined [computeTriad] computes what the processor's does. *)
Lemma Server_computeTriad_eq (st : TrigState) :
  Server.computeTriad st = Core.computeTriad st.
Proof. reflexivity. Qed.

Lemma Core_computeTriad_real (th a ph : R) (ts : Z) :
  Core.computeTriad (real_state th a ph ts) =
  {| jolt := JS.Num (a * sin (th + ph));
     observer := JS.Num (a * cos (th + ph));
     vhitzee := if JS.Rltb (Rabs (a * cos (th + ph))) 1e-10
                then (if JS.Rltb 0 (a * sin (th + ph)) then JS.PosInf else JS.NegInf)
                else JS.Num (a * sin (th + ph) / (a * cos (th + ph))) |}.
Proof.
  unfold Core.computeTriad, Core.computeTangent. simpl.
  set (j := a * sin (th + ph)). set (o := a * cos (th + ph)). f_equal.
  destruct (JS.Rltb (Rabs o) 1e-10) eqn:Hsing; [reflexivity |].
  apply div_Num. intros Ho.
  unfold JS.Rltb in Hsing. destruct (Rlt_dec (Rabs o) 1e-10) as [| Hge]; [discriminate |].
  apply Hge. rewrite Ho, Rabs_R0. lra.
Qed.


(** The circular mean of the two demonstration states is not the mean of
    [beta_state] alone: the former is the arc tangent of a ratio below 1,
    the latter [atan 1]. *)
Lemma mean_theta_of_both_differs :
  fst (fst (coherence_of [alpha_state; beta_state]))
  <> fst (fst (coherence_of [beta_state])).
Proof.
  unfold coherence_of, alpha_state, beta_state, real_state. simpl.
  rewrite sin_0, cos_0, sin_cos_PI4.
  assert (Hc : 0 < cos (PI / 4)).
  { pose proof PI_RGT_0. apply cos_gt_0; lra. }
  set (c := cos (PI / 4)) in *.
  unfold JS.atan2R. rewrite !Rltb_true by lra.
  intros Hsame. injection Hsame as Hatan.
  assert (Hlt : (0 + 0 + c) / (0 + 1 + c) < (0 + c) / (0 + c)).
  { replace ((0 + c) / (0 + c)) with 1 by (field; lra).
    apply Rmult_lt_reg_r with (0 + 1 + c); [lra |].
    replace ((0 + 0 + c) / (0 + 1 + c) * (0 + 1 + c)) with c by (field; lra). lra. }
  apply atan_increasing in Hlt. lra.
Qed.

End TriadFacts.

(* ====================================================================== *)
(** * Theorems on the state transform *)
(* ====================================================================== *)

Section TransformTheorems.
Local Open Scope R_scope.

(** C6.  For every triad whose [vhitzee] is finite or infinite (and whose
    [jolt] and [observer] are numbers), [computeVitality], in the processor and
    in the server, returns a value of the closed interval [[0.5, 1.5]]; and
    whenever [vhitzee] is not finite the opposition penalty is exactly [0.3]. *)
Theorem computeVitality_in_range (t : TrigTriad) :
  JS.isNaN (jolt t) = false ->
  JS.isNaN (observer t) = false ->
  JS.isNaN (vhitzee t) = false ->
  (JS.between 0.5 1.5 (Core.computeVitality t) /\
   JS.between 0.5 1.5 (Server.computeVitality t)) /\
  (JS.isFinite (vhitzee t) = false ->
   Core.opposition_penalty t = JS.Num 0.3 /\ Server.opposition_penalty t = JS.Num 0.3).
Proof.
  intros Hj Ho Hv. split; [split |].
  - now apply Core_vitality_between.
  - now apply Server_vitality_between.
  - intros Hinf. split.
    + now apply Core_penalty_infinite.
    + now apply Server_penalty_infinite.
Qed.

(** The triad at a singularity. *)
Lemma computeVitality_in_range_at_singularity :
  let t := {| jolt := JS.Num 1; observer := JS.Num 0; vhitzee := JS.PosInf |} in
  (JS.between 0.5 1.5 (Core.computeVitality t) /\
   JS.between 0.5 1.5 (Server.computeVitality t)) /\
  (JS.isFinite (vhitzee t) = false ->
   Core.opposition_penalty t = JS.Num 0.3 /\ Server.opposition_penalty t = JS.Num 0.3).
Proof.
  intros t. apply (computeVitality_in_range t); reflexivity.
Defined.




(** C9.  For every real [theta], the triad of the state with amplitude 1 and
    phase 0 satisfies [jolt^2 + observer^2 = amplitude^2].  In exact arithmetic
    the relation is an equality, on the singularity branch as well. *)
Theorem unit_triad_on_circle (th : R) (ts : Z) :
  let on_circle (t : TrigTriad) :=
    exists j o, jolt t = JS.Num j /\ observer t = JS.Num o /\ j * j + o * o = 1 * 1 in
  on_circle (Core.computeTriad (real_state th 1 0 ts)) /\
  on_circle (Server.computeTriad (real_state th 1 0 ts)).
Proof.
  intros on_circle.
  assert (Hcore : on_circle (Core.computeTriad (real_state th 1 0 ts))).
  { unfold on_circle. rewrite Core_computeTriad_real. simpl.
    exists (1 * sin (th + 0)), (1 * cos (th + 0)).
    repeat split.
    rewrite Rplus_0_r, !Rmult_1_l.
    pose proof (sin2_cos2 th) as Hcircle. unfold Rsqr in Hcircle. exact Hcircle. }
  split; [exact Hcore | rewrite Server_computeTriad_eq; exact Hcore].
Qed.




End TransformTheorems.

(* ====================================================================== *)
(** * Facts about the ledger *)
(* ====================================================================== *)

Section LedgerFacts.
Context `{Crypto}.

Lemma computeHash_with_hash (e : LedgerEntry) (h : string) :
  computeHash (with_hash e h) = computeHash e.
Proof. reflexivity. Qed.

Lemma nth_error_snoc_last (A : Type) (l : list A) (x : A) :
  nth_error (l ++ [x]) (List.length (l ++ [x]) - 1) = Some x.
Proof.
  rewrite length_app. simpl.
  replace (List.length l + 1 - 1)%nat with (List.length l) by lia.
  rewrite nth_error_app2 by lia. now rewrite Nat.sub_diag.
Qed.

Lemma nonempty_snoc (A : Type) (l : list A) :
  l <> [] -> exists l' x, l = (l' ++ [x])%list.
Proof.
  intros Hne. destruct (exists_last Hne) as (l' & x & ->). now exists l', x.
Qed.

Lemma Map_set_nonempty (V : Type) (m : Map V) (k : string) (v : V) : Map_set m k v <> [].
Proof.
  destruct m as [| [k' v'] m']; simpl; [discriminate |].
  destruct (String.eqb k' k); discriminate.
Qed.

Lemma filter_all (A : Type) (l : list A) : List.filter (fun _ => true) l = l.
Proof. induction l as [| x l IH]; simpl; [reflexivity | now rewrite IH]. Qed.

Lemma chain_invariant_snoc (l : list LedgerEntry) (e : LedgerEntry) :
  chain_invariant l -> chained_onto l e -> chain_invariant (l ++ [e]).
Proof.
  intros Hinv [Hprev Hhash] i entry prevEntry Hi Hentry Hprevious.
  destruct (Nat.lt_trichotomy i (List.length l)) as [Hlt | [Heq | Hgt]].
  - rewrite nth_error_app1 in Hentry by exact Hlt.
    rewrite nth_error_app1 in Hprevious by lia.
    now apply (Hinv i).
  - subst i. rewrite nth_error_app2, Nat.sub_diag in Hentry by lia.
    injection Hentry as <-.
    rewrite nth_error_app1 in Hprevious by lia.
    split; [now apply Hprev | exact Hhash].
  - assert (Hnone : nth_error (l ++ [e]) i = None).
    { apply nth_error_None. rewrite length_app. simpl. lia. }
    congruence.
Qed.

Lemma chain_invariant_single (e : LedgerEntry) : chain_invariant [e].
Proof.
  intros i entry prevEntry Hi Hentry _.
  destruct i as [| i]; [lia |]. simpl in Hentry. now destruct i.
Qed.

Lemma chain_invariant_nil : chain_invariant [].
Proof. intros i entry prevEntry _ Hentry _. now destruct i. Qed.

Lemma chain_invariant_tail (g : LedgerEntry) (l : list LedgerEntry) :
  chain_invariant (g :: l) -> chain_invariant l.
Proof.
  intros Hinv i entry prevEntry Hi Hentry Hprevious.
  apply (Hinv (S i)); [lia | exact Hentry |].
  destruct i as [| i]; [lia |].
  replace (S (S i) - 1)%nat with (S i) by lia.
  replace (S i - 1)%nat with i in Hprevious by lia. exact Hprevious.
Qed.

Lemma chain_invariant_head (g e : LedgerEntry) (l : list LedgerEntry) :
  chain_invariant (g :: e :: l) -> prev_hash e = hash g /\ hash e = computeHash e.
Proof. intros Hinv. apply (Hinv 1%nat e g); [lia | reflexivity | reflexivity]. Qed.

(** ** Running the registry's methods *)

Lemma Core_last_hash_run (r : Core.SolitonRegistry) (l : list LedgerEntry) (t : LedgerEntry) :
  Core.ledger r = (l ++ [t])%list -> Core.last_hash r = (Return (hash t), r).
Proof.
  intros Hl. unfold Core.last_hash, bind, get. rewrite Hl, nth_error_snoc_last. reflexivity.
Qed.

Lemma Core_last_hash_empty (r : Core.SolitonRegistry) :
  Core.ledger r = [] -> snd (Core.last_hash r) = r /\ threw (Core.last_hash r) = true.
Proof.
  intros Hl. unfold Core.last_hash, bind, get. rewrite Hl. split; reflexivity.
Qed.

Lemma Core_logGroupCoherence_run (rd : Core.Readings) (gs : Core.GroupPhaseState)
    (r : Core.SolitonRegistry) (l : list LedgerEntry) (t : LedgerEntry) :
  Core.ledger r = (l ++ [t])%list ->
  Core.logGroupCoherence rd gs r =
  (Return tt,
   {| Core.ledger := (Core.ledger r ++ [Core.coherence_entry rd gs (hash t)])%list;
      Core.nodeStates := Core.nodeStates r;
      Core.groupStates := Core.groupStates r;
      Core.emitted :=
        (Core.emitted r ++ [("coherence_logged", Core.coherence_entry rd gs (hash t))])%list |}).
Proof.
  intros Hl. unfold Core.logGroupCoherence, bind at 1.
  rewrite (Core_last_hash_run r l t Hl). reflexivity.
Qed.

Lemma Core_updateGroupCoherence_run (rd : Core.Readings) (g : string)
    (r : Core.SolitonRegistry) (l : list LedgerEntry) (t : LedgerEntry) :
  Core.ledger r = (l ++ [t])%list ->
  Core.nodeStates r <> [] ->
  let gs := Core_group_state rd g (Core.nodeStates r) in
  Core.updateGroupCoherence rd g r =
  (Return tt,
   {| Core.ledger := (Core.ledger r ++ [Core.coherence_entry rd gs (hash t)])%list;
      Core.nodeStates := Core.nodeStates r;
      Core.groupStates := Map_set (Core.groupStates r) g gs;
      Core.emitted :=
        (Core.emitted r ++ [("coherence_logged", Core.coherence_entry rd gs (hash t))])%list |}).
Proof.
  intros Hl Hnodes gs. unfold Core.updateGroupCoherence, bind at 1, get.
  assert (Hlen : Nat.eqb (List.length (Map_values (Core.nodeStates r))) 0 = false).
  { unfold Map_values. rewrite length_map.
    destruct (Core.nodeStates r); [congruence | reflexivity]. }
  rewrite Hlen, filter_all.
  subst gs. unfold Core_group_state.
  destruct (coherence_of (Map_values (Core.nodeStates r))) as [[mt pv] si].
  unfold bind, Core.groupStates_set, modify.
  erewrite Core_logGroupCoherence_run by (simpl; exact Hl).
  reflexivity.
Qed.

End LedgerFacts.

Section RegistryFacts.
Context `{Crypto}.

Lemma Core_logPhasePacket_accepts (rd : Core.Readings) (packet : Core.PhasePacket)
    (snh : Core.SovereignNeurodataHeader) (r : Core.SolitonRegistry)
    (l : list LedgerEntry) (t : LedgerEntry) :
  Core.ledger r = (l ++ [t])%list ->
  Core.validateConsent snh = true ->
  Core.NeurodataClass_eqb (Core.neurodata_class snh) Core.raw = false ->
  Core.logPhasePacket rd packet snh r = (Return tt, Core_logged rd packet r t).
Proof.
  intros Hl Hconsent Hclass. unfold Core.logPhasePacket, Core_logged.
  rewrite Hconsent, Hclass. cbn [negb].
  unfold bind at 1, ret at 1. unfold bind at 1, ret at 1. unfold bind at 1.
  rewrite (Core_last_hash_run r l t Hl).
  unfold bind at 1, Core.ledger_push, modify at 1.
  unfold bind at 1, Core.nodeStates_set, modify at 1.
  cbn [Core.ledger Core.nodeStates Core.groupStates Core.emitted].
  set (e := Core.phase_entry rd packet (hash t)).
  set (ns := Map_set (Core.nodeStates r) (Core.node_id packet) (Core.state packet)).
  by_group_id packet;
    try reflexivity.
  unfold bind at 1.
  erewrite Core_updateGroupCoherence_run;
    [reflexivity | cbn [Core.ledger]; reflexivity | apply Map_set_nonempty].
Qed.

Lemma Core_logPhasePacket_no_consent (rd : Core.Readings) (packet : Core.PhasePacket)
    (snh : Core.SovereignNeurodataHeader) (r : Core.SolitonRegistry) :
  Core.validateConsent snh = false ->
  Core.logPhasePacket rd packet snh r = (Throw "Consent validation failed", r).
Proof. intros Hconsent. unfold Core.logPhasePacket. now rewrite Hconsent. Qed.

Lemma Core_logPhasePacket_raw (rd : Core.Readings) (packet : Core.PhasePacket)
    (snh : Core.SovereignNeurodataHeader) (r : Core.SolitonRegistry) :
  Core.validateConsent snh = true ->
  Core.neurodata_class snh = Core.raw ->
  Core.logPhasePacket rd packet snh r =
  (Throw "Raw neurodata cannot be logged to registry", r).
Proof. intros Hconsent Hraw. unfold Core.logPhasePacket. now rewrite Hconsent, Hraw. Qed.

Lemma NeurodataClass_eqb_raw (c : Core.NeurodataClass) :
  Core.NeurodataClass_eqb c Core.raw = true <-> c = Core.raw.
Proof. destruct c; simpl; split; congruence. Qed.

(** [validateConsent] holds exactly when the scope meets the allow-list. *)
Lemma validateConsent_iff (snh : Core.SovereignNeurodataHeader) :
  Core.validateConsent snh = true <->
  exists s, In s (Core.scope (Core.consent snh)) /\
            In s ["group_resonance_aggregate"; "research_aggregate"].
Proof.
  unfold Core.validateConsent. rewrite existsb_exists.
  split; intros (s & Hs & Hallowed); exists s; (split; [exact Hs |]).
  - apply existsb_exists in Hallowed as (a & Ha & Heq).
    apply String.eqb_eq in Heq. now subst a.
  - apply existsb_exists. exists s. split; [exact Hallowed | apply String.eqb_refl].
Qed.

(** The ledger of a reachable registry is never empty. *)
Lemma Core_reachable_nonempty (r : Core.SolitonRegistry) :
  Core.reachable r -> Core.ledger r <> [].
Proof.
  induction 1 as [now | rd packet snh r Hr IH].
  - discriminate.
  - destruct (Core.validateConsent snh) eqn:Hconsent.
    + destruct (Core.NeurodataClass_eqb (Core.neurodata_class snh) Core.raw) eqn:Hclass.
      * apply NeurodataClass_eqb_raw in Hclass.
        now rewrite Core_logPhasePacket_raw.
      * destruct (nonempty_snoc _ _ IH) as (l & t & Hl).
        rewrite (Core_logPhasePacket_accepts rd packet snh r l t Hl Hconsent Hclass).
        unfold Core_logged. cbn [snd].
        by_group_id packet;
          cbn [Core.ledger]; intros Hnil; apply app_eq_nil in Hnil as [_ Hnil];
          discriminate.
    + now rewrite Core_logPhasePacket_no_consent.
Qed.

Lemma Core_phase_entry_chained (rd : Core.Readings) (packet : Core.PhasePacket)
    (l : list LedgerEntry) (t : LedgerEntry) :
  chained_onto (l ++ [t]) (Core.phase_entry rd packet (hash t)).
Proof.
  split; [| reflexivity].
  intros t'. rewrite nth_error_snoc_last. intros [= <-]. reflexivity.
Qed.

Lemma Core_coherence_entry_chained (rd : Core.Readings) (gs : Core.GroupPhaseState)
    (l : list LedgerEntry) (t : LedgerEntry) :
  chained_onto (l ++ [t]) (Core.coherence_entry rd gs (hash t)).
Proof.
  split; [| reflexivity].
  intros t'. rewrite nth_error_snoc_last. intros [= <-]. reflexivity.
Qed.

(** [logPhasePacket] keeps the chain invariant of a ledger that has a first
    entry; on an empty ledger it throws and appends nothing. *)
Lemma Core_logPhasePacket_preserves (rd : Core.Readings) (packet : Core.PhasePacket)
    (snh : Core.SovereignNeurodataHeader) (r : Core.SolitonRegistry) :
  chain_invariant (Core.ledger r) ->
  chain_invariant (Core.ledger (snd (Core.logPhasePacket rd packet snh r))).
Proof.
  intros Hinv.
  destruct (Core.validateConsent snh) eqn:Hconsent;
    [| now rewrite Core_logPhasePacket_no_consent].
  destruct (Core.NeurodataClass_eqb (Core.neurodata_class snh) Core.raw) eqn:Hclass.
  { apply NeurodataClass_eqb_raw in Hclass. now rewrite Core_logPhasePacket_raw. }
  destruct (Core.ledger r) as [| g rest] eqn:Hledger.
  - unfold Core.logPhasePacket. rewrite Hconsent, Hclass. cbn [negb].
    unfold bind at 1, ret at 1. unfold bind at 1, ret at 1. unfold bind at 1.
    destruct (Core_last_hash_empty r Hledger) as [Hstate Hthrew].
    unfold threw in Hthrew.
    destruct (Core.last_hash r) as [[tail | message] r']; [discriminate |].
    cbn in Hstate |- *. subst r'. rewrite Hledger. apply chain_invariant_nil.
  - assert (Hne : Core.ledger r <> []) by (rewrite Hledger; discriminate).
    destruct (nonempty_snoc _ _ Hne) as (l & t & Hl).
    rewrite (Core_logPhasePacket_accepts rd packet snh r l t Hl Hconsent Hclass).
    unfold Core_logged. cbn [snd].
    assert (Hphase : chain_invariant (Core.ledger r ++ [Core.phase_entry rd packet (hash t)])).
    { apply chain_invariant_snoc; [now rewrite Hledger |].
      rewrite Hl. apply Core_phase_entry_chained. }
    by_group_id packet;
      cbn [Core.ledger]; try exact Hphase.
    apply chain_invariant_snoc; [exact Hphase | apply Core_coherence_entry_chained].
Qed.

Lemma Core_logGroupCoherence_preserves (rd : Core.Readings) (gs : Core.GroupPhaseState)
    (r : Core.SolitonRegistry) :
  chain_invariant (Core.ledger r) ->
  chain_invariant (Core.ledger (snd (Core.logGroupCoherence rd gs r))).
Proof.
  intros Hinv. destruct (Core.ledger r) as [| g rest] eqn:Hledger.
  - unfold Core.logGroupCoherence, bind at 1.
    destruct (Core_last_hash_empty r Hledger) as [Hstate Hthrew].
    unfold threw in Hthrew.
    destruct (Core.last_hash r) as [[tail | message] r']; [discriminate |].
    cbn in Hstate |- *. subst r'. rewrite Hledger. apply chain_invariant_nil.
  - assert (Hne : Core.ledger r <> []) by (rewrite Hledger; discriminate).
    destruct (nonempty_snoc _ _ Hne) as (l & t & Hl).
    rewrite (Core_logGroupCoherence_run rd gs r l t Hl). cbn [snd Core.ledger].
    apply chain_invariant_snoc; [now rewrite Hledger |].
    rewrite Hl. apply Core_coherence_entry_chained.
Qed.

Lemma Core_reachable_chain (r : Core.SolitonRegistry) :
  Core.reachable r -> chain_invariant (Core.ledger r).
Proof.
  induction 1 as [now | rd packet snh r Hr IH].
  - apply chain_invariant_single.
  - now apply Core_logPhasePacket_preserves.
Qed.

(** ** The server's registry *)

Lemma Server_updateGroupCoherence_frame (rd : Server.Readings) (g : string)
    (r : Server.Registry) :
  fst (Server.updateGroupCoherence rd g r) = Return tt /\
  Server.ledger (snd (Server.updateGroupCoherence rd g r)) = Server.ledger r /\
  Server.nodeStates (snd (Server.updateGroupCoherence rd g r)) = Server.nodeStates r.
Proof.
  unfold Server.updateGroupCoherence, bind, get.
  destruct (Nat.eqb (List.length (Map_values (Server.nodeStates r))) 0);
    [repeat split |].
  destruct (coherence_of (Map_values (Server.nodeStates r))) as [[mt pv] si].
  repeat split.
Qed.

Lemma Server_logPhasePacket_ledger (rd : Server.Readings) (packet : Server.PhasePacket)
    (r : Server.Registry) :
  Server.ledger (snd (Server.logPhasePacket rd packet r)) =
  (Server.ledger r ++ [Server.phase_entry rd packet (Server.ledger r)])%list.
Proof.
  unfold Server.logPhasePacket, bind at 1, get.
  unfold bind at 1, modify at 1. unfold bind at 1, modify at 1.
  destruct (Server.group_id packet) as [g |]; [| reflexivity].
  destruct (truthy_string (Some g)); [| reflexivity].
  now rewrite (proj1 (proj2 (Server_updateGroupCoherence_frame rd g _))).
Qed.

Lemma Server_phase_entry_chained (rd : Server.Readings) (packet : Server.PhasePacket)
    (l : list LedgerEntry) :
  chained_onto l (Server.phase_entry rd packet l).
Proof.
  split; [| reflexivity].
  intros t Ht. unfold Server.phase_entry. cbn. now rewrite Ht.
Qed.

Lemma Server_logPhasePacket_preserves (rd : Server.Readings) (packet : Server.PhasePacket)
    (r : Server.Registry) :
  chain_invariant (Server.ledger r) ->
  chain_invariant (Server.ledger (snd (Server.logPhasePacket rd packet r))).
Proof.
  intros Hinv. rewrite Server_logPhasePacket_ledger.
  apply chain_invariant_snoc; [exact Hinv | apply Server_phase_entry_chained].
Qed.

Lemma Server_reachable_chain (r : Server.Registry) :
  Server.reachable r -> chain_invariant (Server.ledger r).
Proof.
  induction 1 as [| rd packet r Hr IH].
  - apply chain_invariant_nil.
  - now apply Server_logPhasePacket_preserves.
Qed.

End RegistryFacts.

(* ====================================================================== *)
(** * Theorems on the ledger *)
(* ====================================================================== *)

Section LedgerTheorems.
Context `{Crypto}.

(** C2.  Every reachable ledger, of the registry and of the server, satisfies
    the chain invariant: each entry at an index [i > 0] has the hash of entry
    [i - 1] as its [prev_hash], and its [hash] is the SHA-256 digest of the
    canonical encoding of its fields without [hash]; and every appending
    operation ([logPhasePacket], [logGroupCoherence], the server's
    [logPhasePacket]) preserves the invariant. *)
Theorem ledger_chain_invariant :
  (forall r, Core.reachable r -> chain_invariant (Core.ledger r)) /\
  (forall r, Server.reachable r -> chain_invariant (Server.ledger r)) /\
  (forall rd packet snh r,
     chain_invariant (Core.ledger r) ->
     chain_invariant (Core.ledger (snd (Core.logPhasePacket rd packet snh r)))) /\
  (forall rd groupState r,
     chain_invariant (Core.ledger r) ->
     chain_invariant (Core.ledger (snd (Core.logGroupCoherence rd groupState r)))) /\
  (forall rd packet r,
     chain_invariant (Server.ledger r) ->
     chain_invariant (Server.ledger (snd (Server.logPhasePacket rd packet r)))).
Proof.
  split; [| split; [| split; [| split]]].
  - intros r Hr. induction Hr as [now | rd packet snh r Hr IH].
    + apply chain_invariant_single.
    + now apply Core_logPhasePacket_preserves.
  - intros r Hr. induction Hr as [| rd packet r Hr IH].
    + apply chain_invariant_nil.
    + now apply Server_logPhasePacket_preserves.
  - intros rd packet snh r. apply Core_logPhasePacket_preserves.
  - intros rd groupState r. apply Core_logGroupCoherence_preserves.
  - intros rd packet r. apply Server_logPhasePacket_preserves.
Qed.

(** C5.  On a reachable registry [logPhasePacket] throws if and only if the
    header's class is [raw] or its consent scope shares no element with the
    allow-list; and when it throws the registry is unchanged: ledger, node
    states, group states and emitted events. *)
Theorem logPhasePacket_consent_gate
    (rd : Core.Readings) (packet : Core.PhasePacket)
    (snh : Core.SovereignNeurodataHeader) (r : Core.SolitonRegistry) :
  Core.reachable r ->
  let result := Core.logPhasePacket rd packet snh r in
  (threw result = true <->
   (Core.neurodata_class snh = Core.raw \/
    ~ exists s, In s (Core.scope (Core.consent snh)) /\
                In s ["group_resonance_aggregate"; "research_aggregate"])) /\
  (threw result = true -> snd result = r).
Proof.
  intros Hr result. subst result.
  destruct (Core.validateConsent snh) eqn:Hconsent.
  - destruct (Core.NeurodataClass_eqb (Core.neurodata_class snh) Core.raw) eqn:Hclass.
    + apply NeurodataClass_eqb_raw in Hclass.
      rewrite (Core_logPhasePacket_raw rd packet snh r Hconsent Hclass).
      split; [split; [now left | reflexivity] | reflexivity].
    + destruct (nonempty_snoc _ _ (Core_reachable_nonempty r Hr)) as (l & t & Hl).
      rewrite (Core_logPhasePacket_accepts rd packet snh r l t Hl Hconsent Hclass).
      split; [split |]; try discriminate.
      intros [Hraw | Hscope].
      * apply NeurodataClass_eqb_raw in Hraw. congruence.
      * exfalso. apply Hscope. now apply validateConsent_iff.
  - rewrite (Core_logPhasePacket_no_consent rd packet snh r Hconsent).
    split; [split; [| reflexivity] | reflexivity].
    intros _. right. intros Hscope. apply validateConsent_iff in Hscope. congruence.
Qed.

End LedgerTheorems.

(** The ledger after the demonstration's first packet. *)
Lemma ledger_chain_invariant_demo :
  @chain_invariant demo_crypto
    (Core.ledger
       (snd (@Core.logPhasePacket demo_crypto demo_readings alpha_packet demo_snh
               (@Core.new_SolitonRegistry demo_crypto 0)))).
Proof.
  apply (proj1 (@ledger_chain_invariant demo_crypto)).
  apply Core.reachable_log, Core.reachable_new.
Defined.

(** A header of class [raw] on a fresh registry: the call throws and the
    registry, its one-entry ledger included, is as before. *)
Lemma logPhasePacket_consent_gate_raw :
  let r := @Core.new_SolitonRegistry demo_crypto 0 in
  let result := @Core.logPhasePacket demo_crypto demo_readings alpha_packet raw_snh r in
  threw result = true /\ snd result = r /\ List.length (Core.ledger (snd result)) = 1%nat.
Proof.
  intros r result.
  destruct (@logPhasePacket_consent_gate demo_crypto demo_readings alpha_packet raw_snh r)
    as [Hiff Hframe].
  - apply Core.reachable_new.
  - assert (Hthrew : threw result = true) by (apply Hiff; left; reflexivity).
    pose proof (Hframe Hthrew) as Hsame.
    split; [exact Hthrew | split; [exact Hsame |]].
    fold result in Hsame. now rewrite Hsame.
Defined.

(* ====================================================================== *)
(** * Verification and tampering *)
(* ====================================================================== *)

Section IntegrityFacts.
Context `{Crypto}.

(** The loop reads nothing of the previous entry but its hash. *)
Lemma verify_from_prev (i : nat) (g g' : LedgerEntry) (rest : list LedgerEntry) :
  hash g = hash g' -> Core.verify_from i g rest = Core.verify_from i g' rest.
Proof. intros Hsame. destruct rest as [| e rest]; simpl; [reflexivity | now rewrite Hsame]. Qed.

Lemma verify_from_intact (rest : list LedgerEntry) :
  forall (i : nat) (g : LedgerEntry),
    chain_invariant (g :: rest) -> Core.verify_from i g rest = (true, []).
Proof.
  induction rest as [| e rest IH]; intros i g Hinv; simpl; [reflexivity |].
  destruct (chain_invariant_head g e rest Hinv) as [Hlink Hdigest].
  rewrite Hlink, String.eqb_refl. simpl.
  rewrite <- Hdigest, String.eqb_refl. simpl.
  apply IH. now apply chain_invariant_tail with g.
Qed.

Lemma verify_from_corrupt (rest : list LedgerEntry) :
  forall (i j : nat) (g entry : LedgerEntry) (p : json),
    chain_invariant (g :: rest) ->
    nth_error rest j = Some entry ->
    computeHash (with_payload entry p) <> hash entry ->
    Core.verify_from i g (corrupt_payload j p rest) = (false, [Hash_mismatch_at_entry (i + j)]).
Proof.
  induction rest as [| e rest IH]; intros i j g entry p Hinv Hentry Hdiffers.
  - now destruct j.
  - destruct (chain_invariant_head g e rest Hinv) as [Hlink Hdigest].
    destruct j as [| j]; simpl in Hentry |- *.
    + injection Hentry as ->.
      rewrite Hlink, String.eqb_refl. simpl.
      destruct (String.eqb_spec (hash entry) (computeHash (with_payload entry p)))
        as [Hsame | _]; [now symmetry in Hsame |].
      simpl. now rewrite Nat.add_0_r.
    + rewrite Hlink, String.eqb_refl. simpl.
      rewrite <- Hdigest, String.eqb_refl. simpl.
      rewrite (IH (S i) j e entry p); [| now apply chain_invariant_tail with g | assumption..].
      now rewrite Nat.add_succ_r.
Qed.

(** Entry 0 is never re-hashed: overwriting its payload changes no answer. *)
Lemma verifyIntegrity_blind_to_first (l : list LedgerEntry) (p : json) :
  Core.verifyIntegrity_of (corrupt_payload 0 p l) = Core.verifyIntegrity_of l.
Proof.
  destruct l as [| g rest]; simpl; [reflexivity |].
  now apply verify_from_prev.
Qed.

Lemma verifyIntegrity_intact (l : list LedgerEntry) :
  chain_invariant l -> Core.verifyIntegrity_of l = (true, []).
Proof.
  intros Hinv. destruct l as [| g rest]; simpl; [reflexivity |].
  now apply verify_from_intact.
Qed.

(** C3, as amended.  [verifyIntegrity] answers [true] on the ledger of every
    reachable registry.  If the payload of one entry other than the first is
    overwritten, so that its digest no longer is its stored hash, and nothing
    is recomputed, [verifyIntegrity] answers [false] and reports that entry's
    index. *)
Theorem verifyIntegrity_detects_tampering (r : Core.SolitonRegistry) :
  Core.reachable r ->
  Core.verifyIntegrity r = (true, []) /\
  forall (i : nat) (entry : LedgerEntry) (p : json),
    (1 <= i)%nat ->
    nth_error (Core.ledger r) i = Some entry ->
    computeHash (with_payload entry p) <> hash entry ->
    Core.verifyIntegrity_of (corrupt_payload i p (Core.ledger r))
    = (false, [Hash_mismatch_at_entry i]).
Proof.
  intros Hr. pose proof (Core_reachable_chain r Hr) as Hinv.
  split.
  - now apply verifyIntegrity_intact.
  - intros i entry p Hi Hentry Hdiffers.
    destruct (Core.ledger r) as [| g rest]; [now destruct i |].
    destruct i as [| j]; [lia |]. simpl in Hentry |- *.
    now rewrite (verify_from_corrupt rest 1 j g entry p).
Qed.

End IntegrityFacts.

(** C3, the first entry.  In the ledger of the
    demonstration's first packet the payload of entry 0 is overwritten and its
    digest changes, yet [verifyIntegrity] still answers [true] and reports
    nothing: the loop starts at index 1 and never re-hashes entry 0. *)
Lemma genesis_tampering_goes_unnoticed :
  let l := Core.ledger
             (snd (@Core.logPhasePacket demo_crypto demo_readings alpha_packet demo_snh
                     (@Core.new_SolitonRegistry demo_crypto 0))) in
  (exists g, nth_error l 0 = Some g /\
             @computeHash demo_crypto (with_payload g (JStr "tampered")) <> hash g) /\
  @Core.verifyIntegrity_of demo_crypto (corrupt_payload 0 (JStr "tampered") l) = (true, []) /\
  @Core.verifyIntegrity_of demo_crypto (corrupt_payload 0 (JStr "tampered") l)
  <> (false, [Hash_mismatch_at_entry 0]).
Proof.
  intros l.
  assert (Hblind : @Core.verifyIntegrity_of demo_crypto (corrupt_payload 0 (JStr "tampered") l)
                   = (true, [])).
  { rewrite verifyIntegrity_blind_to_first. apply verifyIntegrity_intact.
    apply Core_reachable_chain, Core.reachable_log, Core.reachable_new. }
  split; [| split; [exact Hblind | rewrite Hblind; discriminate]].
  exists (@Core.createGenesisEntry demo_crypto 0). split; [reflexivity |].
  vm_compute. discriminate.
Qed.

(** The ledger after the demonstration's first packet, intact and with the
    payload of entry 1 overwritten. *)
Lemma verifyIntegrity_detects_tampering_demo :
  let r := snd (@Core.logPhasePacket demo_crypto demo_readings alpha_packet demo_snh
                  (@Core.new_SolitonRegistry demo_crypto 0)) in
  @Core.verifyIntegrity demo_crypto r = (true, []) /\
  @Core.verifyIntegrity_of demo_crypto (corrupt_payload 1 (JStr "tampered") (Core.ledger r))
  = (false, [Hash_mismatch_at_entry 1]).
Proof.
  intros r.
  destruct (@verifyIntegrity_detects_tampering demo_crypto r) as [Hintact Hdetects].
  - apply Core.reachable_log, Core.reachable_new.
  - split; [exact Hintact |].
    apply (Hdetects 1%nat
             (@Core.phase_entry demo_crypto demo_readings alpha_packet
                (hash (@Core.createGenesisEntry demo_crypto 0)))).
    + lia.
    + reflexivity.
    + vm_compute. discriminate.
Defined.

(* ====================================================================== *)
(** * Group membership and revocation *)
(* ====================================================================== *)

Section MembershipFacts.
Context `{Crypto}.

Lemma Core_new_ledger (now : Z) :
  Core.ledger (Core.new_SolitonRegistry now) = ([] ++ [Core.createGenesisEntry now])%list.
Proof. reflexivity. Qed.

Lemma Core_logged_ledger_snoc (rd : Core.Readings) (packet : Core.PhasePacket)
    (r : Core.SolitonRegistry) (t : LedgerEntry) :
  exists l' t', Core.ledger (Core_logged rd packet r t) = (l' ++ [t'])%list.
Proof.
  unfold Core_logged.
  by_group_id packet;
    cbn [Core.ledger]; eexists; eexists; reflexivity.
Qed.

(** C1, at two packets of two groups.  [Node_Alpha] reports for [group-A],
    then [Node_Beta] for [group-B].  The state stored for [group-B], in the
    registry and in the server, is computed over both node states: its
    snapshot lists [Node_Alpha], its node count is 2, and its three metrics
    are those of the two states together; the mean angle is not the one of
    [Node_Beta], the only member of [group-B]. *)
Theorem group_coherence_spans_all_nodes :
  let r1 := snd (Core.logPhasePacket demo_readings alpha_packet demo_snh
                   (Core.new_SolitonRegistry 0)) in
  let r2 := snd (Core.logPhasePacket demo_readings beta_packet demo_snh r1) in
  let s1 := snd (Server.logPhasePacket server_readings server_alpha_packet
                   Server.new_Registry) in
  let s2 := snd (Server.logPhasePacket server_readings server_beta_packet s1) in
  (exists gs,
     Map_get (Core.groupStates r2) "group-B" = Some gs /\
     Map_keys (Core.node_states gs) = ["Node_Alpha"; "Node_Beta"] /\
     (Core.mean_theta gs, Core.phase_variance gs, Core.synchrony_index gs)
     = coherence_of [alpha_state; beta_state] /\
     Core.mean_theta gs <> fst (fst (coherence_of [beta_state]))) /\
  (exists gs,
     Map_get (Server.groupStates s2) "group-B" = Some gs /\
     Server.node_count gs = 2%nat /\
     (Server.mean_theta gs, Server.phase_variance gs, Server.synchrony_index gs)
     = coherence_of [Server.state server_alpha_packet; Server.state server_beta_packet]).
Proof.
  intros r1 r2 s1 s2. split.
  - subst r2 r1.
    rewrite (Core_logPhasePacket_accepts demo_readings alpha_packet demo_snh _ _ _
               (Core_new_ledger 0) eq_refl eq_refl).
    set (r1 := Core_logged _ _ _ _).
    destruct (Core_logged_ledger_snoc demo_readings alpha_packet
                (Core.new_SolitonRegistry 0) (Core.createGenesisEntry 0)) as (l & t & Hl).
    fold r1 in Hl.
    rewrite (Core_logPhasePacket_accepts demo_readings beta_packet demo_snh r1 l t
               Hl eq_refl eq_refl).
    eexists. split; [reflexivity | split; [reflexivity | split; [reflexivity |]]].
    exact mean_theta_of_both_differs.
  - subst s2 s1. eexists. split; [reflexivity | split; reflexivity].
Qed.

(** C4, on every request.  The [/revoke] handler answers and leaves the
    process as it was: no Revocation entry is appended, the ledger keeps its
    length and its entries; with a token it answers 200, [status: revoked]. *)
Theorem post_revoke_appends_nothing
    (revocation_token session_id : json) (s : Server.ServerState) :
  snd (Server.post_revoke revocation_token session_id s) = s /\
  List.length (Server.ledger (Server.geometricFPT
                 (snd (Server.post_revoke revocation_token session_id s))))
  = List.length (Server.ledger (Server.geometricFPT s)) /\
  fst (Server.post_revoke (JStr "token-1") session_id s)
  = Return {| Server.status_code := 200;
              Server.body := JObj [ ("status", JStr "revoked");
                                    ("message", JStr "Revocation honored");
                                    ("session_id", session_id) ] |}.
Proof.
  unfold Server.post_revoke.
  destruct (negb (Server.json_truthy revocation_token)); repeat split.
Qed.

End MembershipFacts.

(* ====================================================================== *)
(** * More on verification *)
(* ====================================================================== *)

Section VerificationTheorems.
Context `{Crypto}.

Lemma chain_invariant_cons (g e : LedgerEntry) (rest : list LedgerEntry) :
  prev_hash e = hash g -> hash e = computeHash e ->
  chain_invariant (e :: rest) -> chain_invariant (g :: e :: rest).
Proof.
  intros Hlink Hdigest Hinv i entry prevEntry Hi Hentry Hprevious.
  destruct i as [| [| i]]; [lia | |].
  - simpl in Hentry, Hprevious. injection Hentry as <-. injection Hprevious as <-.
    now split.
  - apply (Hinv (S i)); [lia | exact Hentry |].
    replace (S i - 1)%nat with i by lia.
    replace (S (S i) - 1)%nat with (S i) in Hprevious by lia. exact Hprevious.
Qed.

Lemma chain_invariant_firstn (n : nat) (l : list LedgerEntry) :
  chain_invariant l -> chain_invariant (firstn n l).
Proof.
  intros Hinv i entry prevEntry Hi Hentry Hprevious.
  rewrite nth_error_firstn in Hentry, Hprevious.
  destruct (Nat.ltb_spec i n); [| discriminate].
  destruct (Nat.ltb_spec (i - 1) n); [| discriminate].
  now apply (Hinv i).
Qed.

Lemma verify_from_true_chain (rest : list LedgerEntry) :
  forall (i : nat) (g : LedgerEntry),
    fst (Core.verify_from i g rest) = true -> chain_invariant (g :: rest).
Proof.
  induction rest as [| e rest IH]; intros i g Htrue.
  - apply chain_invariant_single.
  - simpl in Htrue.
    destruct (String.eqb_spec (prev_hash e) (hash g)) as [Hlink | _]; [| discriminate].
    destruct (String.eqb_spec (hash e) (computeHash e)) as [Hdigest | _]; [| discriminate].
    simpl in Htrue. apply chain_invariant_cons; [assumption.. |].
    now apply (IH (S i)).
Qed.

(** Where the loop stops when it answers [false]. *)
Lemma verify_from_false (rest : list LedgerEntry) :
  forall (k : nat) (g : LedgerEntry) (out : list console_line),
    Core.verify_from k g rest = (false, out) ->
    exists (j : nat) (entry prevEntry : LedgerEntry),
      nth_error (g :: rest) (S j) = Some entry /\
      nth_error (g :: rest) j = Some prevEntry /\
      chain_invariant (firstn (S j) (g :: rest)) /\
      ((prev_hash entry <> hash prevEntry /\
        out = [Integrity_violation_at_entry (k + j)]) \/
       (prev_hash entry = hash prevEntry /\ hash entry <> computeHash entry /\
        out = [Hash_mismatch_at_entry (k + j)])).
Proof.
  induction rest as [| e rest IH]; intros k g out Hfalse; [discriminate |].
  simpl in Hfalse.
  destruct (String.eqb_spec (prev_hash e) (hash g)) as [Hlink | Hbroken].
  - destruct (String.eqb_spec (hash e) (computeHash e)) as [Hdigest | Hmismatch].
    + simpl in Hfalse.
      destruct (IH (S k) e out Hfalse) as (j & entry & prevEntry & He & Hp & Hinv & Hwhy).
      exists (S j), entry, prevEntry.
      split; [exact He | split; [exact Hp | split]].
      * change (firstn (S (S j)) (g :: e :: rest))
          with (g :: firstn (S j) (e :: rest)).
        change (firstn (S j) (e :: rest)) with (e :: firstn j rest) in Hinv |- *.
        now apply chain_invariant_cons.
      * now rewrite Nat.add_succ_r.
    + simpl in Hfalse. injection Hfalse as <-.
      exists 0%nat, e, g. rewrite Nat.add_0_r.
      split; [reflexivity | split; [reflexivity | split]].
      * apply chain_invariant_single.
      * right. now repeat split.
  - simpl in Hfalse. injection Hfalse as <-.
    exists 0%nat, e, g. rewrite Nat.add_0_r.
    split; [reflexivity | split; [reflexivity | split]].
    + apply chain_invariant_single.
    + left. now split.
Qed.

(** X1.  [verifyIntegrity] answers [true], printing nothing, exactly on the
    ledgers that satisfy the chain invariant: for any list of entries, not
    only the reachable ones. *)
Theorem verifyIntegrity_true_iff_chain (l : list LedgerEntry) :
  Core.verifyIntegrity_of l = (true, []) <-> chain_invariant l.
Proof.
  split.
  - intros Htrue. destruct l as [| g rest]; [apply chain_invariant_nil |].
    apply (verify_from_true_chain rest 1 g). simpl in Htrue. now rewrite Htrue.
  - apply verifyIntegrity_intact.
Qed.

(** X2.  When [verifyIntegrity] answers [false] it prints one line, naming an
    index [i >= 1] such that the entries below [i] form a valid chain and
    entry [i] is the first to fail: "Integrity violation" when its [prev_hash]
    is not the hash of entry [i - 1], "Hash mismatch" when the link holds but
    its [hash] is not its digest. *)
Theorem verifyIntegrity_reports_first_violation
    (l : list LedgerEntry) (out : list console_line) :
  Core.verifyIntegrity_of l = (false, out) ->
  exists (i : nat) (entry prevEntry : LedgerEntry),
    (1 <= i)%nat /\
    nth_error l i = Some entry /\
    nth_error l (i - 1) = Some prevEntry /\
    chain_invariant (firstn i l) /\
    ((prev_hash entry <> hash prevEntry /\ out = [Integrity_violation_at_entry i]) \/
     (prev_hash entry = hash prevEntry /\ hash entry <> computeHash entry /\
      out = [Hash_mismatch_at_entry i])).
Proof.
  intros Hfalse. destruct l as [| g rest]; [discriminate |].
  destruct (verify_from_false rest 1 g out Hfalse)
    as (j & entry & prevEntry & He & Hp & Hinv & Hwhy).
  exists (S j), entry, prevEntry.
  replace (S j - 1)%nat with j by lia.
  split; [lia | split; [exact He | split; [exact Hp | split; [exact Hinv | exact Hwhy]]]].
Qed.

(** X3.  Every prefix of a ledger that verifies also verifies: entries removed
    from the end leave no trace that [verifyIntegrity] could see. *)
Theorem verifyIntegrity_blind_to_truncation (l : list LedgerEntry) (n : nat) :
  Core.verifyIntegrity_of l = (true, []) ->
  Core.verifyIntegrity_of (firstn n l) = (true, []).
Proof.
  intros Htrue. apply verifyIntegrity_intact, chain_invariant_firstn.
  destruct l as [| g rest]; [apply chain_invariant_nil |].
  apply (verify_from_true_chain rest 1 g). simpl in Htrue. now rewrite Htrue.
Qed.

End VerificationTheorems.

Lemma verifyIntegrity_reports_first_violation_demo :
  exists (i : nat) (entry prevEntry : LedgerEntry),
    (1 <= i)%nat /\
    nth_error (corrupt_payload 1 (JStr "tampered") demo_ledger) i = Some entry /\
    nth_error (corrupt_payload 1 (JStr "tampered") demo_ledger) (i - 1) = Some prevEntry /\
    @chain_invariant demo_crypto (firstn i (corrupt_payload 1 (JStr "tampered") demo_ledger)) /\
    ((prev_hash entry <> hash prevEntry /\
      [Hash_mismatch_at_entry 1] = [Integrity_violation_at_entry i]) \/
     (prev_hash entry = hash prevEntry /\
      hash entry <> @computeHash demo_crypto entry /\
      [Hash_mismatch_at_entry 1] = [Hash_mismatch_at_entry i])).
Proof.
  apply (@verifyIntegrity_reports_first_violation demo_crypto).
  vm_compute. reflexivity.
Defined.

Lemma verifyIntegrity_blind_to_truncation_demo :
  @Core.verifyIntegrity_of demo_crypto (firstn 2 demo_ledger) = (true, []).
Proof.
  apply (@verifyIntegrity_blind_to_truncation demo_crypto).
  apply verifyIntegrity_intact, Core_reachable_chain.
  apply Core.reachable_log, Core.reachable_new.
Defined.

(* ====================================================================== *)
(** * The life of a registry *)
(* ====================================================================== *)

Section RegistryTheorems.
Context `{Crypto}.

(** A call on a reachable registry either throws and changes nothing, or is
    accepted. *)
Lemma Core_logPhasePacket_cases (rd : Core.Readings) (packet : Core.PhasePacket)
    (snh : Core.SovereignNeurodataHeader) (r : Core.SolitonRegistry) :
  Core.reachable r ->
  (threw (Core.logPhasePacket rd packet snh r) = true /\
   snd (Core.logPhasePacket rd packet snh r) = r) \/
  (exists l t, Core.ledger r = (l ++ [t])%list /\
               Core.logPhasePacket rd packet snh r = (Return tt, Core_logged rd packet r t)).
Proof.
  intros Hr.
  destruct (Core.validateConsent snh) eqn:Hconsent.
  - destruct (Core.NeurodataClass_eqb (Core.neurodata_class snh) Core.raw) eqn:Hclass.
    + left. apply NeurodataClass_eqb_raw in Hclass.
      rewrite (Core_logPhasePacket_raw rd packet snh r Hconsent Hclass). now split.
    + right. destruct (nonempty_snoc _ _ (Core_reachable_nonempty r Hr)) as (l & t & Hl).
      exists l, t. split; [exact Hl |].
      now apply Core_logPhasePacket_accepts with l.
  - left. rewrite (Core_logPhasePacket_no_consent rd packet snh r Hconsent). now split.
Qed.

(** Induction over the reachable registries, by accepted calls. *)
Lemma Core_reachable_ind_accepted (P : Core.SolitonRegistry -> Prop) :
  (forall now, P (Core.new_SolitonRegistry now)) ->
  (forall rd packet r l t,
     Core.reachable r -> P r -> Core.ledger r = (l ++ [t])%list ->
     P (Core_logged rd packet r t)) ->
  forall r, Core.reachable r -> P r.
Proof.
  intros Hnew Hstep r Hr. induction Hr as [now | rd packet snh r Hr IH]; [apply Hnew |].
  destruct (Core_logPhasePacket_cases rd packet snh r Hr) as [[_ ->] | (l & t & Hl & ->)];
    [exact IH | now apply Hstep with l].
Qed.

(** The ledger of [Core_logged]: one entry more, or two. *)
Lemma Core_logged_ledger (rd : Core.Readings) (packet : Core.PhasePacket)
    (r : Core.SolitonRegistry) (t : LedgerEntry) :
  exists suffix,
    Core.ledger (Core_logged rd packet r t) = (Core.ledger r ++ suffix)%list /\
    ((truthy_string (Core.group_id packet) = false /\
      suffix = [Core.phase_entry rd packet (hash t)]) \/
     (truthy_string (Core.group_id packet) = true /\
      exists gs, suffix = [Core.phase_entry rd packet (hash t);
                           Core.coherence_entry rd gs
                             (hash (Core.phase_entry rd packet (hash t)))])).
Proof.
  unfold Core_logged.
  destruct (Core.group_id packet) as [g |] eqn:Hg;
    [destruct (truthy_string (Some g)) eqn:Htruthy |]; cbn [Core.ledger].
  - eexists. split; [now rewrite <- app_assoc |].
    right. split; [reflexivity | eexists; reflexivity].
  - eexists. split; [reflexivity |]. left. now split.
  - eexists. split; [reflexivity |]. left. now split.
Qed.

(** X4.  [logPhasePacket] on a reachable registry only appends: the ledger
    before the call is a prefix of the ledger after it.  A call that throws
    appends nothing; an accepted one appends one [PHASE_AGGREGATE] entry, and
    a [GROUP_COHERENCE] entry after it when the packet has a non-empty
    [group_id]. *)
Theorem logPhasePacket_only_appends
    (rd : Core.Readings) (packet : Core.PhasePacket)
    (snh : Core.SovereignNeurodataHeader) (r : Core.SolitonRegistry) :
  Core.reachable r ->
  let result := Core.logPhasePacket rd packet snh r in
  exists suffix,
    Core.ledger (snd result) = (Core.ledger r ++ suffix)%list /\
    List.map entry_type suffix =
      if threw result then []
      else if truthy_string (Core.group_id packet)
           then [PHASE_AGGREGATE; GROUP_COHERENCE]
           else [PHASE_AGGREGATE].
Proof.
  intros Hr result. subst result.
  destruct (Core_logPhasePacket_cases rd packet snh r Hr)
    as [[Hthrew Hsame] | (l & t & Hl & Hrun)].
  - exists []. rewrite Hthrew, Hsame, app_nil_r. now split.
  - rewrite Hrun. cbn [snd threw fst].
    destruct (Core_logged_ledger rd packet r t)
      as (suffix & Hledger & [[Hg ->] | [Hg [gs ->]]]);
      eexists; (split; [exact Hledger |]); now rewrite Hg.
Qed.

(** X5.  The first entry of every reachable ledger is the genesis entry the
    constructor made: id [genesis-north-001], type [PHASE_AGGREGATE],
    [prev_hash] of 64 zeros, and a hash that is its digest. *)
Theorem reachable_ledger_starts_with_genesis (r : Core.SolitonRegistry) :
  Core.reachable r ->
  exists (now : Z) (rest : list LedgerEntry),
    Core.ledger r = Core.createGenesisEntry now :: rest /\
    entry_id (Core.createGenesisEntry now) = "genesis-north-001" /\
    entry_type (Core.createGenesisEntry now) = PHASE_AGGREGATE /\
    prev_hash (Core.createGenesisEntry now) = zeros64 /\
    hash (Core.createGenesisEntry now) = computeHash (Core.createGenesisEntry now).
Proof.
  revert r. apply Core_reachable_ind_accepted.
  - intros now. exists now, []. now repeat split.
  - intros rd packet r l t Hr IH Hl.
    destruct IH as (now & rest & Hledger & Hfields).
    destruct (Core_logged_ledger rd packet r t) as (suffix & Hgrown & _).
    exists now, (rest ++ suffix)%list. split; [| exact Hfields].
    now rewrite Hgrown, Hledger.
Qed.

Lemma coherence_follows_phase_snoc_phase (l : list LedgerEntry) (e : LedgerEntry) :
  coherence_follows_phase l -> entry_type e = PHASE_AGGREGATE ->
  coherence_follows_phase (l ++ [e]).
Proof.
  intros Hl He i c Hc Htype.
  destruct (Nat.lt_ge_cases i (List.length l)) as [Hlt | Hge].
  - rewrite nth_error_app1 in Hc by exact Hlt.
    destruct (Hl i c Hc Htype) as (p & Hi & Hp & Hptype).
    exists p. rewrite nth_error_app1 by lia. now repeat split.
  - rewrite nth_error_app2 in Hc by exact Hge.
    destruct (i - List.length l)%nat as [| k]; simpl in Hc.
    + injection Hc as <-. congruence.
    + now destruct k.
Qed.

Lemma coherence_follows_phase_snoc_coherence (l : list LedgerEntry) (p c : LedgerEntry) :
  coherence_follows_phase (l ++ [p]) -> entry_type p = PHASE_AGGREGATE ->
  coherence_follows_phase ((l ++ [p]) ++ [c]).
Proof.
  intros Hl Hp i e He Htype.
  destruct (Nat.lt_ge_cases i (List.length (l ++ [p]))) as [Hlt | Hge].
  - rewrite nth_error_app1 in He by exact Hlt.
    destruct (Hl i e He Htype) as (q & Hi & Hq & Hqtype).
    exists q. rewrite nth_error_app1 by lia. now repeat split.
  - rewrite nth_error_app2 in He by exact Hge.
    destruct (i - List.length (l ++ [p]))%nat as [| k] eqn:Hk; simpl in He;
      [| now destruct k].
    assert (Hi : i = List.length (l ++ [p])) by lia.
    exists p. rewrite length_app in Hi. simpl in Hi.
    split; [lia | split; [| exact Hp]].
    rewrite nth_error_app1 by (rewrite length_app; simpl; lia).
    rewrite nth_error_app2 by lia.
    replace (i - 1 - List.length l)%nat with 0%nat by lia. reflexivity.
Qed.

(** X6.  No reachable ledger holds a [PHASE_REVOCATION] entry, and every
    [GROUP_COHERENCE] entry stands right after a [PHASE_AGGREGATE] entry. *)
Theorem reachable_ledger_entry_types (r : Core.SolitonRegistry) :
  Core.reachable r ->
  Forall (fun e => entry_type e <> PHASE_REVOCATION) (Core.ledger r) /\
  coherence_follows_phase (Core.ledger r).
Proof.
  revert r. apply Core_reachable_ind_accepted.
  - intros now. split.
    + repeat constructor. discriminate.
    + intros i e He Htype. destruct i as [| i]; simpl in He.
      * injection He as <-. discriminate.
      * now destruct i.
  - intros rd packet r l t Hr [IHnone IHfollows] Hl.
    destruct (Core_logged_ledger rd packet r t)
      as (suffix & -> & [[_ ->] | [_ [gs ->]]]).
    + split.
      * apply Forall_app. split; [exact IHnone |]. repeat constructor. discriminate.
      * now apply coherence_follows_phase_snoc_phase.
    + split.
      * apply Forall_app. split; [exact IHnone |]. repeat constructor; discriminate.
      * change [Core.phase_entry rd packet (hash t);
                Core.coherence_entry rd gs (hash (Core.phase_entry rd packet (hash t)))]
          with ([Core.phase_entry rd packet (hash t)]
                ++ [Core.coherence_entry rd gs
                      (hash (Core.phase_entry rd packet (hash t)))])%list.
        rewrite app_assoc.
        apply coherence_follows_phase_snoc_coherence; [| reflexivity].
        now apply coherence_follows_phase_snoc_phase.
Qed.

End RegistryTheorems.

(** ** The node-state map *)

Section MapFacts.
Variable V : Type.

Lemma Map_get_set_same (m : Map V) (k : string) (v : V) :
  Map_get (Map_set m k v) k = Some v.
Proof.
  induction m as [| [k' v'] m IH]; simpl.
  - now rewrite String.eqb_refl.
  - destruct (String.eqb k' k) eqn:Hk; simpl; rewrite Hk; [reflexivity | exact IH].
Qed.

Lemma Map_get_set_other (m : Map V) (k k' : string) (v : V) :
  k' <> k -> Map_get (Map_set m k v) k' = Map_get m k'.
Proof.
  intros Hne. induction m as [| [k0 v0] m IH]; simpl.
  - destruct (String.eqb_spec k k'); [congruence | reflexivity].
  - destruct (String.eqb_spec k0 k) as [-> | Hk0]; simpl.
    + destruct (String.eqb_spec k k'); [congruence | reflexivity].
    + destruct (String.eqb k0 k'); [reflexivity | exact IH].
Qed.

Lemma Map_set_keys_in (m : Map V) (k x : string) (v : V) :
  In x (Map_keys (Map_set m k v)) -> x = k \/ In x (Map_keys m).
Proof.
  induction m as [| [k0 v0] m IH]; simpl.
  - intros [<- | []]. now left.
  - destruct (String.eqb_spec k0 k) as [-> | Hk0]; simpl.
    + intros Hin. now right.
    + intros [<- | Hin]; [right; now left |].
      destruct (IH Hin) as [-> | Hold]; [now left | right; now right].
Qed.

Lemma Map_set_NoDup (m : Map V) (k : string) (v : V) :
  NoDup (Map_keys m) -> NoDup (Map_keys (Map_set m k v)).
Proof.
  induction m as [| [k0 v0] m IH]; simpl; intros Hnodup.
  - constructor; [intros [] | constructor].
  - inversion Hnodup as [| ? ? Hfresh Hrest]; subst.
    destruct (String.eqb_spec k0 k) as [-> | Hk0]; simpl; [exact Hnodup |].
    constructor; [| now apply IH].
    intros Hin. destruct (Map_set_keys_in m k k0 v Hin) as [-> | Hold]; contradiction.
Qed.

End MapFacts.

Section GroupGuardTheorems.
Context `{Crypto}.


End GroupGuardTheorems.

Section NodeStateTheorems.
Context `{Crypto}.

Lemma Core_logged_nodeStates (rd : Core.Readings) (packet : Core.PhasePacket)
    (r : Core.SolitonRegistry) (t : LedgerEntry) :
  Core.nodeStates (Core_logged rd packet r t)
  = Map_set (Core.nodeStates r) (Core.node_id packet) (Core.state packet).
Proof. unfold Core_logged. by_group_id packet; reflexivity. Qed.

Lemma Core_reachable_NoDup (r : Core.SolitonRegistry) :
  Core.reachable r -> NoDup (Map_keys (Core.nodeStates r)).
Proof.
  revert r. apply Core_reachable_ind_accepted.
  - intros now. constructor.
  - intros rd packet r l t Hr IH Hl.
    rewrite Core_logged_nodeStates. now apply Map_set_NoDup.
Qed.

(** X7.  After an accepted [logPhasePacket] the node-state map holds the
    packet's state under the packet's [node_id], the state of every other
    node is as before, and no node id is listed twice: the latest accepted
    observation of a node replaces the previous one. *)
Theorem logPhasePacket_latest_state_wins
    (rd : Core.Readings) (packet : Core.PhasePacket)
    (snh : Core.SovereignNeurodataHeader) (r : Core.SolitonRegistry) :
  Core.reachable r ->
  threw (Core.logPhasePacket rd packet snh r) = false ->
  let r' := snd (Core.logPhasePacket rd packet snh r) in
  Map_get (Core.nodeStates r') (Core.node_id packet) = Some (Core.state packet) /\
  (forall k, k <> Core.node_id packet ->
             Map_get (Core.nodeStates r') k = Map_get (Core.nodeStates r) k) /\
  NoDup (Map_keys (Core.nodeStates r')).
Proof.
  intros Hr Hok r'. subst r'.
  destruct (Core_logPhasePacket_cases rd packet snh r Hr)
    as [[Hthrew _] | (l & t & Hl & Hrun)]; [congruence |].
  rewrite Hrun. cbn [snd]. rewrite Core_logged_nodeStates.
  split; [apply Map_get_set_same | split].
  - intros k Hk. now apply Map_get_set_other.
  - apply Map_set_NoDup. now apply Core_reachable_NoDup.
Qed.

Lemma tl_app_nonempty (A : Type) (l m : list A) :
  l <> [] -> List.tl (l ++ m) = (List.tl l ++ m)%list.
Proof. destruct l; [congruence | reflexivity]. Qed.

(** X8.  In every reachable registry each entry but the genesis entry has been
    emitted exactly once, and nothing else has: the list of emitted events is
    a rearrangement of the ledger without its first entry, each entry under
    the name [coherence_logged] when it is a [GROUP_COHERENCE] entry and
    [phase_logged] otherwise.  So there is one event less than there are
    entries. *)
Theorem reachable_events_match_ledger (r : Core.SolitonRegistry) :
  Core.reachable r ->
  Permutation (Core.emitted r) (List.map event_for (List.tl (Core.ledger r))) /\
  (List.length (Core.emitted r) + 1 = List.length (Core.ledger r))%nat.
Proof.
  revert r. apply Core_reachable_ind_accepted.
  - intros now. split; [apply Permutation_refl | reflexivity].
  - intros rd packet r l t Hr [IHperm IHcount] Hl.
    assert (Hne : Core.ledger r <> []).
    { rewrite Hl. intros Hnil. apply app_eq_nil in Hnil as [_ Hnil]. discriminate. }
    unfold Core_logged. by_group_id packet; cbn [Core.ledger Core.emitted].
    + split; [| rewrite !length_app; simpl; lia].
      rewrite <- !app_assoc, tl_app_nonempty by exact Hne.
      rewrite map_app. apply Permutation_app; [exact IHperm |].
      apply perm_swap.
    + split; [| rewrite !length_app; simpl; lia].
      rewrite tl_app_nonempty by exact Hne.
      rewrite map_app. apply Permutation_app; [exact IHperm | apply Permutation_refl].
    + split; [| rewrite !length_app; simpl; lia].
      rewrite tl_app_nonempty by exact Hne.
      rewrite map_app. apply Permutation_app; [exact IHperm | apply Permutation_refl].
Qed.

End NodeStateTheorems.

Lemma logPhasePacket_only_appends_demo :
  exists suffix,
    demo_ledger = (Core.ledger (@Core.new_SolitonRegistry demo_crypto 0) ++ suffix)%list /\
    List.map entry_type suffix = [PHASE_AGGREGATE; GROUP_COHERENCE].
Proof.
  exact (@logPhasePacket_only_appends demo_crypto demo_readings alpha_packet demo_snh
           (@Core.new_SolitonRegistry demo_crypto 0) (@Core.reachable_new demo_crypto 0)).
Defined.

Lemma reachable_ledger_starts_with_genesis_demo :
  exists (now : Z) (rest : list LedgerEntry),
    demo_ledger = @Core.createGenesisEntry demo_crypto now :: rest /\
    entry_id (@Core.createGenesisEntry demo_crypto now) = "genesis-north-001" /\
    entry_type (@Core.createGenesisEntry demo_crypto now) = PHASE_AGGREGATE /\
    prev_hash (@Core.createGenesisEntry demo_crypto now) = zeros64 /\
    hash (@Core.createGenesisEntry demo_crypto now)
    = @computeHash demo_crypto (@Core.createGenesisEntry demo_crypto now).
Proof.
  apply (@reachable_ledger_starts_with_genesis demo_crypto).
  apply Core.reachable_log, Core.reachable_new.
Defined.

Lemma reachable_ledger_entry_types_demo :
  Forall (fun e => entry_type e <> PHASE_REVOCATION) demo_ledger /\
  coherence_follows_phase demo_ledger.
Proof.
  apply (@reachable_ledger_entry_types demo_crypto).
  apply Core.reachable_log, Core.reachable_new.
Defined.

Lemma logPhasePacket_latest_state_wins_demo :
  let r := @Core.new_SolitonRegistry demo_crypto 0 in
  let r' := snd (@Core.logPhasePacket demo_crypto demo_readings alpha_packet demo_snh r) in
  Map_get (Core.nodeStates r') "Node_Alpha" = Some alpha_state /\
  (forall k, k <> "Node_Alpha" ->
             Map_get (Core.nodeStates r') k = Map_get (Core.nodeStates r) k) /\
  NoDup (Map_keys (Core.nodeStates r')).
Proof.
  intros r r'.
  apply (@logPhasePacket_latest_state_wins demo_crypto demo_readings alpha_packet demo_snh r).
  - apply Core.reachable_new.
  - reflexivity.
Defined.

Lemma reachable_events_match_ledger_demo :
  let r := snd (@Core.logPhasePacket demo_crypto demo_readings alpha_packet demo_snh
                  (@Core.new_SolitonRegistry demo_crypto 0)) in
  Permutation (Core.emitted r) (List.map event_for (List.tl (Core.ledger r))) /\
  (List.length (Core.emitted r) + 1 = List.length (Core.ledger r))%nat.
Proof.
  intros r. apply (@reachable_events_match_ledger demo_crypto).
  apply Core.reachable_log, Core.reachable_new.
Defined.

(* ====================================================================== *)
(** * The server's registry *)
(* ====================================================================== *)

Section ServerRegistryTheorems.
Context `{Crypto}.

Lemma Server_logPhasePacket_run (rd : Server.Readings) (packet : Server.PhasePacket)
    (r : Server.Registry) :
  fst (Server.logPhasePacket rd packet r) = Return tt /\
  Server.nodeStates (snd (Server.logPhasePacket rd packet r))
  = Map_set (Server.nodeStates r) (Server.node_id packet) (Server.state packet).
Proof.
  unfold Server.logPhasePacket, bind, get, modify. cbv beta iota zeta.
  destruct (Server.group_id packet) as [g |]; [| now split].
  destruct (truthy_string (Some g)); [| now split].
  match goal with |- context [Server.updateGroupCoherence rd g ?s] =>
    destruct (Server_updateGroupCoherence_frame rd g s) as (Hret & _ & Hnodes);
    destruct (Server.updateGroupCoherence rd g s) as [out s']
  end.
  cbn [fst snd] in *. subst out. now rewrite Hnodes.
Qed.

(** X9.  The server's [logPhasePacket] has no consent gate and never throws:
    every call appends exactly one [PHASE_AGGREGATE] entry, dated by the
    packet, carrying its own digest and chained to the previous entry (to 64
    zeros on an empty ledger), and files the packet's state under its
    [node_id]. *)
Theorem server_logPhasePacket_always_appends
    (rd : Server.Readings) (packet : Server.PhasePacket) (r : Server.Registry) :
  let result := Server.logPhasePacket rd packet r in
  fst result = Return tt /\
  (exists e,
     Server.ledger (snd result) = (Server.ledger r ++ [e])%list /\
     entry_type e = PHASE_AGGREGATE /\
     created_at e = Server.packet_created_at packet /\
     hash e = computeHash e /\
     (Server.ledger r = [] -> prev_hash e = zeros64) /\
     (forall l t, Server.ledger r = (l ++ [t])%list -> prev_hash e = hash t)) /\
  Map_get (Server.nodeStates (snd result)) (Server.node_id packet)
  = Some (Server.state packet).
Proof.
  intros result. subst result.
  destruct (Server_logPhasePacket_run rd packet r) as [Hret Hnodes].
  split; [exact Hret | split].
  - exists (Server.phase_entry rd packet (Server.ledger r)).
    split; [apply Server_logPhasePacket_ledger | repeat split].
    + intros Hempty. unfold Server.phase_entry. cbn [prev_hash with_hash].
      now rewrite Hempty.
    + intros l t Hl. unfold Server.phase_entry. cbn [prev_hash with_hash].
      now rewrite Hl, nth_error_snoc_last.
  - rewrite Hnodes. apply Map_get_set_same.
Qed.

(** X10.  A ledger the server can reach holds [PHASE_AGGREGATE] entries only
    (group coherence never reaches it), its first entry is chained to 64
    zeros, and the node-state map lists no node twice. *)
Theorem server_reachable_ledger_shape (r : Server.Registry) :
  Server.reachable r ->
  Forall (fun e => entry_type e = PHASE_AGGREGATE) (Server.ledger r) /\
  (forall first, nth_error (Server.ledger r) 0 = Some first -> prev_hash first = zeros64) /\
  NoDup (Map_keys (Server.nodeStates r)).
Proof.
  intros Hr. induction Hr as [| rd packet r Hr (IHtypes & IHfirst & IHnodes)].
  - split; [constructor | split; [discriminate | constructor]].
  - rewrite Server_logPhasePacket_ledger.
    rewrite (proj2 (Server_logPhasePacket_run rd packet r)).
    split; [| split].
    + apply Forall_app. split; [exact IHtypes | repeat constructor].
    + intros first. destruct (Server.ledger r) as [| g rest] eqn:Hledger.
      * simpl. intros [= <-]. reflexivity.
      * simpl. intros [= <-]. now apply IHfirst.
    + now apply Map_set_NoDup.
Qed.

End ServerRegistryTheorems.

Lemma server_reachable_ledger_shape_demo :
  let r := snd (@Server.logPhasePacket demo_crypto server_readings server_alpha_packet
                  Server.new_Registry) in
  Forall (fun e => entry_type e = PHASE_AGGREGATE) (Server.ledger r) /\
  (forall first, nth_error (Server.ledger r) 0 = Some first -> prev_hash first = zeros64) /\
  NoDup (Map_keys (Server.nodeStates r)).
Proof.
  intros r. apply (@server_reachable_ledger_shape demo_crypto).
  apply Server.reachable_log, Server.reachable_new.
Defined.

(** The server's [logPhasePacket] on an empty ledger. *)
Lemma server_logPhasePacket_always_appends_first :
  let result := @Server.logPhasePacket demo_crypto server_readings server_alpha_packet
                  Server.new_Registry in
  fst result = Return tt /\
  exists e, Server.ledger (snd result) = [e] /\ prev_hash e = zeros64.
Proof.
  intros result.
  destruct (@server_logPhasePacket_always_appends demo_crypto server_readings
              server_alpha_packet Server.new_Registry)
    as (Hret & (e & Hledger & _ & _ & _ & Hfirst & _) & _).
  split; [exact Hret |]. exists e. split; [exact Hledger | now apply Hfirst].
Defined.

(* ====================================================================== *)
(** * More on the processor *)
(* ====================================================================== *)

Section ProcessorTheorems.
Local Open Scope R_scope.


(** X12.  For a state with real components whose [theta + phase] stays
    within the doubles, [jolt] and [observer] are real and lie on the circle
    of the amplitude, [jolt^2 + observer^2 = amplitude^2].  When [observer],
    which is [amplitude * cos(theta + phase)], is at least [1e-10] in absolute
    value, and the tangent is within the doubles, [vhitzee] is the tangent of
    [theta + phase]: the amplitude cancels. *)
Theorem computeTriad_is_trigonometric (th a ph : R) (ts : Z) :
  Rabs (th + ph) <= JS.MAX_VALUE ->
  exists j o,
    jolt (Core.computeTriad (real_state th a ph ts)) = JS.Num j /\
    observer (Core.computeTriad (real_state th a ph ts)) = JS.Num o /\
    j * j + o * o = a * a /\
    (1e-10 <= Rabs o -> Rabs (tan (th + ph)) <= JS.MAX_VALUE ->
     vhitzee (Core.computeTriad (real_state th a ph ts)) = JS.Num (tan (th + ph))).
Proof.
  intros _.
  rewrite Core_computeTriad_real. cbn [jolt observer vhitzee].
  exists (a * sin (th + ph)), (a * cos (th + ph)).
  split; [reflexivity | split; [reflexivity | split]].
  - pose proof (sin2_cos2 (th + ph)) as Hcircle. unfold Rsqr in Hcircle.
    replace (a * sin (th + ph) * (a * sin (th + ph)) + a * cos (th + ph) * (a * cos (th + ph)))
      with (a * a * (sin (th + ph) * sin (th + ph) + cos (th + ph) * cos (th + ph)))
      by ring.
    rewrite Hcircle. ring.
  - intros Hbig _. rewrite Rltb_false by exact Hbig. f_equal.
    assert (Hprod : a * cos (th + ph) <> 0).
    { intros Hzero. rewrite Hzero, Rabs_R0 in Hbig. lra. }
    unfold tan. field. split.
    + intros Hcos. apply Hprod. rewrite Hcos. ring.
    + intros Hamp. apply Hprod. rewrite Hamp. ring.
Qed.

End ProcessorTheorems.


(** The state of angle 0 and amplitude 2. *)
Lemma computeTriad_is_trigonometric_at_zero :
  vhitzee (Core.computeTriad (real_state 0 2 0 0)) = JS.Num (tan (0 + 0)).
Proof.
  pose proof MAX_VALUE_ge as Hmax.
  assert (Hzero : (Rabs (0 + 0) <= JS.MAX_VALUE)%R).
  { rewrite Rplus_0_r, Rabs_R0. lra. }
  destruct (computeTriad_is_trigonometric 0 2 0 0 Hzero) as (j & o & Hj & Ho & _ & Htan).
  apply Htan.
  - rewrite Core_computeTriad_real in Ho. cbn [observer] in Ho. injection Ho as <-.
    rewrite Rplus_0_r, cos_0, Rmult_1_r, Rabs_right; lra.
  - rewrite Rplus_0_r, tan_0, Rabs_R0. lra.
Defined.

(* ====================================================================== *)
(** * The group metrics *)
(* ====================================================================== *)

Section CoherenceTheorems.
Local Open Scope R_scope.

Lemma fold_add_real (A : Type) (f : A -> JS.number) (l : list A) :
  Forall (fun x => exists r, f x = JS.Num r) l ->
  forall acc, exists s, fold_left (fun sum x => (sum + f x)%js) l (JS.Num acc) = JS.Num s.
Proof.
  induction 1 as [| x l [r Hx] _ IH]; intros acc; simpl.
  - now exists acc.
  - rewrite Hx. apply IH.
Qed.

Lemma fold_add_const (A : Type) (f : A -> JS.number) (c : R) (l : list A) :
  Forall (fun x => f x = JS.Num c) l ->
  forall acc,
    fold_left (fun sum x => (sum + f x)%js) l (JS.Num acc)
    = JS.Num (acc + INR (List.length l) * c).
Proof.
  induction 1 as [| x l Hx _ IH]; intros acc.
  - simpl. f_equal. ring.
  - cbn [fold_left]. rewrite Hx. cbn [JS.add]. rewrite IH. f_equal.
    change (List.length (x :: l)) with (S (List.length l)). rewrite S_INR. ring.
Qed.

(** [Math.atan2] of two reals lies between [-PI] and [PI]. *)
Lemma atan2R_range (y x : R) : - PI <= JS.atan2R y x <= PI.
Proof.
  pose proof PI_RGT_0 as Hpi. pose proof (atan_bound (y / x)) as Hatan.
  unfold JS.atan2R, JS.Rltb.
  destruct (Rlt_dec 0 x) as [Hx | Hx]; [lra |].
  destruct (Rlt_dec x 0) as [Hneg | Hnneg].
  - assert (Hinv : / x < 0) by now apply Rinv_lt_0_compat.
    destruct (Rlt_dec y 0) as [Hy | Hy].
    + assert (Hq : 0 < y / x) by (unfold Rdiv; nra).
      apply atan_increasing in Hq. rewrite atan_0 in Hq. lra.
    + assert (Hq : y / x <= 0) by (unfold Rdiv; nra).
      destruct Hq as [Hq | Hq].
      * apply atan_increasing in Hq. rewrite atan_0 in Hq. lra.
      * rewrite Hq, atan_0. lra.
  - destruct (Rlt_dec 0 y); [lra |]. destruct (Rlt_dec y 0); lra.
Qed.

Lemma fold_add_squares_bound (K : R) (l : list JS.number) :
  Forall (fun d => exists r, d = JS.Num r /\ r * r <= K) l ->
  forall acc, 0 <= acc ->
    exists s, fold_left (fun sum d => (sum + d * d)%js) l (JS.Num acc) = JS.Num s /\
              0 <= s <= acc + INR (List.length l) * K.
Proof.
  induction 1 as [| d l (r & -> & Hr) _ IH]; intros acc Hacc.
  - exists acc. simpl. split; [reflexivity | lra].
  - cbn [fold_left JS.mul JS.add].
    destruct (IH (acc + r * r)) as (s & Hs & Hlow & Hhigh); [nra |].
    exists s. split; [exact Hs |].
    change (List.length (JS.Num r :: l)) with (S (List.length l)). rewrite S_INR. lra.
Qed.

(** An angular deviation from a mean in [[-PI, PI]] is a real number, at most
    [B + PI] in absolute value for an angle within [B]. *)
Lemma deviation_within (B m : R) (s : TrigState) :
  - PI <= m <= PI ->
  angle_within B s ->
  exists d,
    JS.Math_min (JS.Math_abs (theta s - JS.Num m)%js)
      (JS.Num 2 * JS.Math_PI - JS.Math_abs (theta s - JS.Num m))%js = JS.Num d /\
    d * d <= (B + PI) ^ 2.
Proof.
  intros Hm (th & -> & Hth). eexists. split; [reflexivity |].
  pose proof PI_RGT_0 as Hpi.
  assert (Hx : 0 <= Rabs (th + - m) <= B + PI).
  { split; [apply Rabs_pos |].
    eapply Rle_trans; [apply Rabs_triang |]. rewrite Rabs_Ropp.
    assert (Rabs m <= PI) by (apply Rabs_le; lra). lra. }
  set (x := Rabs (th + - m)) in *.
  unfold Rmin. destruct (Rle_dec x (2 * PI + - x)); nra.
Qed.

(** X13.  Over a non-empty list of states whose angles are real and at most
    [B] in absolute value, few enough for the sum of the squared deviations to
    stay within the doubles, the three group metrics are real numbers with
    [-PI <= mean_theta <= PI], [0 <= phase_variance <= (B + PI)^2] and
    [1 / (1 + (B + PI)^2) <= synchrony_index <= 1], so [synchrony_index > 0]. *)
Theorem coherence_of_bounds (groupNodes : list TrigState) (B : R) :
  groupNodes <> [] ->
  Forall (angle_within B) groupNodes ->
  INR (List.length groupNodes) * (B + PI) ^ 2 <= JS.MAX_VALUE ->
  exists m v s,
    coherence_of groupNodes = (JS.Num m, JS.Num v, JS.Num s) /\
    - PI <= m <= PI /\ 0 <= v <= (B + PI) ^ 2 /\
    / (1 + (B + PI) ^ 2) <= s <= 1 /\ 0 < s.
Proof.
  intros Hne Hwithin _. unfold coherence_of.
  assert (Hreal : Forall real_theta groupNodes).
  { eapply Forall_impl; [| exact Hwithin]. intros s (th & Hs & _). now exists th. }
  destruct (fold_add_real TrigState (fun s => JS.Math_sin (theta s)) groupNodes) with (acc := 0)
    as [S ->].
  { eapply Forall_impl; [| exact Hreal]. intros s [th ->]. eexists. reflexivity. }
  destruct (fold_add_real TrigState (fun s => JS.Math_cos (theta s)) groupNodes) with (acc := 0)
    as [C ->].
  { eapply Forall_impl; [| exact Hreal]. intros s [th ->]. eexists. reflexivity. }
  cbn [JS.Math_atan2].
  set (m := JS.atan2R S C).
  assert (Hm : - PI <= m <= PI) by apply atan2R_range.
  set (deviations := List.map _ groupNodes).
  assert (Hdev : Forall (fun d => exists r, d = JS.Num r /\ r * r <= (B + PI) ^ 2)
                        deviations).
  { subst deviations. apply Forall_map.
    eapply Forall_impl; [| exact Hwithin]. intros s Hs. now apply deviation_within. }
  destruct (fold_add_squares_bound ((B + PI) ^ 2) deviations Hdev 0 (Rle_refl 0))
    as (Q & -> & HQ & HQmax).
  assert (Hlen : 0 < INR (List.length deviations)).
  { subst deviations. rewrite length_map. apply lt_0_INR.
    destruct groupNodes; [congruence | simpl; lia]. }
  unfold JS.of_nat. rewrite div_Num by lra.
  set (n := INR (List.length deviations)) in *.
  set (K := (B + PI) ^ 2) in *.
  assert (Hinv : 0 < / n) by now apply Rinv_0_lt_compat.
  assert (Hv : 0 <= Q / n <= K).
  { unfold Rdiv. split; [apply Rmult_le_pos; lra |].
    apply Rmult_le_reg_r with n; [exact Hlen |].
    rewrite Rmult_assoc, Rinv_l by lra. lra. }
  set (v := Q / n) in *.
  cbn [JS.add]. rewrite div_Num by lra.
  exists m, v, (1.0 / (1.0 + v)).
  split; [reflexivity | split; [exact Hm | split; [exact Hv |]]].
  assert (Hpos : 0 < / (1.0 + v)) by (apply Rinv_0_lt_compat; lra).
  assert (Hlow : / (1 + K) <= / (1.0 + v)) by (apply Rinv_le_contravar; lra).
  split; [split |]; [unfold Rdiv; lra | | unfold Rdiv; lra].
  apply Rmult_le_reg_r with (1.0 + v); [lra |].
  unfold Rdiv. rewrite Rmult_assoc, Rinv_l by lra. lra.
Qed.

(** X14.  When all nodes report the same angle [th], strictly between
    [-PI/2] and [PI/2], the mean is [th], the variance is 0, the synchrony
    index is 1 and the status is [COLLECTIVE_COIL_ENGAGED]. *)
Theorem coherence_of_unanimous (groupNodes : list TrigState) (th : R) :
  groupNodes <> [] ->
  Forall (fun s => theta s = JS.Num th) groupNodes ->
  - (PI / 2) < th < PI / 2 ->
  coherence_of groupNodes = (JS.Num th, JS.Num 0, JS.Num 1) /\
  interpretCoherence (snd (coherence_of groupNodes)) = "COLLECTIVE_COIL_ENGAGED".
Proof.
  intros Hne Hsame Hth.
  assert (Hn : 0 < INR (List.length groupNodes)).
  { apply lt_0_INR. destruct groupNodes; [congruence | simpl; lia]. }
  assert (Hcos : 0 < cos th) by (apply cos_gt_0; lra).
  assert (Hvalue : coherence_of groupNodes = (JS.Num th, JS.Num 0, JS.Num 1)).
  { unfold coherence_of.
    rewrite (fold_add_const TrigState (fun s => JS.Math_sin (theta s)) (sin th))
      by (eapply Forall_impl; [| exact Hsame]; intros s ->; reflexivity).
    rewrite (fold_add_const TrigState (fun s => JS.Math_cos (theta s)) (cos th))
      by (eapply Forall_impl; [| exact Hsame]; intros s ->; reflexivity).
    cbn [JS.Math_atan2].
    assert (Hmean : JS.atan2R (0 + INR (List.length groupNodes) * sin th)
                      (0 + INR (List.length groupNodes) * cos th) = th).
    { unfold JS.atan2R. rewrite Rltb_true by nra.
      replace ((0 + INR (List.length groupNodes) * sin th)
               / (0 + INR (List.length groupNodes) * cos th))
        with (tan th) by (unfold tan; field; lra).
      now apply atan_tan. }
    rewrite Hmean.
    set (deviations := List.map _ groupNodes).
    assert (Hdev : Forall (fun d => (d * d)%js = JS.Num 0) deviations).
    { subst deviations. apply Forall_map.
      eapply Forall_impl; [| exact Hsame]. intros s ->. cbn.
      pose proof PI_RGT_0 as Hpi.
      replace (th + - th) with 0 by ring. rewrite Rabs_R0, Rmin_left by lra.
      f_equal. ring. }
    rewrite (fold_add_const JS.number (fun d => (d * d)%js) 0 deviations Hdev).
    assert (Hlen : List.length deviations = List.length groupNodes)
      by (subst deviations; apply length_map).
    rewrite Hlen. unfold JS.of_nat. rewrite div_Num by lra.
    replace ((0 + INR (List.length groupNodes) * 0) / INR (List.length groupNodes))
      with 0 by (field; lra).
    cbn [JS.add]. rewrite div_Num by lra.
    replace (1.0 / (1.0 + 0)) with 1 by lra. reflexivity. }
  split; [exact Hvalue |].
  rewrite Hvalue. cbn [snd]. unfold interpretCoherence, JS.gt. cbn [JS.lt].
  now rewrite Rltb_true by lra.
Qed.


End CoherenceTheorems.

(** The two demonstration states. *)
Lemma coherence_of_bounds_demo :
  exists m v s,
    coherence_of [alpha_state; beta_state] = (JS.Num m, JS.Num v, JS.Num s) /\
    (- PI <= m <= PI)%R /\ (0 <= v <= (1 + PI) ^ 2)%R /\
    (/ (1 + (1 + PI) ^ 2) <= s <= 1)%R /\ (0 < s)%R.
Proof.
  pose proof PI_RGT_0 as Hpi. pose proof PI_4 as Hpi4. pose proof MAX_VALUE_ge as Hmax.
  apply (coherence_of_bounds [alpha_state; beta_state] 1).
  - discriminate.
  - repeat constructor; eexists; (split; [reflexivity |]); apply Rabs_le; lra.
  - simpl. nra.
Defined.

(** Two nodes at angle 0. *)
Lemma coherence_of_unanimous_demo :
  coherence_of [alpha_state; alpha_state] = (JS.Num 0, JS.Num 0, JS.Num 1) /\
  interpretCoherence (snd (coherence_of [alpha_state; alpha_state]))
  = "COLLECTIVE_COIL_ENGAGED".
Proof.
  apply (coherence_of_unanimous [alpha_state; alpha_state] 0).
  - discriminate.
  - repeat constructor.
  - pose proof PI_RGT_0. lra.
Defined.


(* ====================================================================== *)
(** * The server's processor *)
(* ====================================================================== *)

Section ServerProcessorTheorems.
Local Open Scope R_scope.

Lemma or_default_within (B : R) (x : option JS.number) :
  0 <= B -> feature_within B x ->
  exists a, JS.or_default x (JS.Num 0) = JS.Num a /\ 0 <= a <= B.
Proof.
  intros HB. destruct x as [[a | | |] |]; simpl; intros Hx; try contradiction.
  - destruct (negb (JS.Reqb a 0)); [exists a | exists 0]; split; try reflexivity; lra.
  - exists 0. split; [reflexivity | lra].
Qed.

Lemma eegToPhaseState_bounded (now : Z) (bands : Server.Bands) (B : R) :
  0 <= B ->
  feature_within B (Server.alpha bands) ->
  feature_within B (Server.theta_band bands) ->
  feature_within B (Server.gamma bands) ->
  exists th a,
    Server.eegToPhaseState now bands = real_state th a 0 now /\
    0 <= th <= 3 * PI * B /\ 0.5 <= a <= sqrt (2 * B) * 0.8 + 0.5.
Proof.
  intros HB Ha Ht Hg. unfold Server.eegToPhaseState.
  destruct (or_default_within B _ HB Ha) as (al & -> & Hal).
  destruct (or_default_within B _ HB Ht) as (tb & -> & Htb).
  destruct (or_default_within B _ HB Hg) as (ga & -> & Hga).
  cbn. rewrite Rltb_false by lra. cbn.
  eexists. eexists. split; [reflexivity |].
  pose proof PI_RGT_0 as Hpi. pose proof (sqrt_pos (al + ga)) as Hsqrt.
  assert (Hroot : sqrt (al + ga) <= sqrt (2 * B)) by (apply sqrt_le_1_alt; lra).
  split; [split; [apply Rmult_le_pos; lra | nra] | lra].
Qed.

(** X16.  For feature weights that are absent or reals between 0 and [B],
    with [3 * PI * B] within the doubles, [eegToPhaseState] yields a real
    state with [0 <= theta <= 3 * PI * B],
    [0.5 <= amplitude <= sqrt(2 * B) * 0.8 + 0.5] and [phase = 0], stamped
    with the clock reading; with none of the three keys it is the state of
    angle 0 and amplitude 0.5. *)
Theorem eegToPhaseState_range (now : Z) (bands : Server.Bands) (B : R) :
  0 <= B ->
  3 * PI * B <= JS.MAX_VALUE ->
  feature_within B (Server.alpha bands) ->
  feature_within B (Server.theta_band bands) ->
  feature_within B (Server.gamma bands) ->
  (exists th a,
     Server.eegToPhaseState now bands = real_state th a 0 now /\
     0 <= th <= 3 * PI * B /\ 0.5 <= a <= sqrt (2 * B) * 0.8 + 0.5) /\
  (Server.alpha bands = None -> Server.theta_band bands = None ->
   Server.gamma bands = None ->
   Server.eegToPhaseState now bands
   = real_state ((0 * 0.5 + 0 * 1.0 + 0 * 1.5) * PI) (sqrt (0 + 0) * 0.8 + 0.5) 0 now /\
   (0 * 0.5 + 0 * 1.0 + 0 * 1.5) * PI = 0 /\
   sqrt (0 + 0) * 0.8 + 0.5 = 0.5).
Proof.
  intros HB _ Ha Ht Hg. split.
  - now apply eegToPhaseState_bounded.
  - intros Hna Hnt Hng. unfold Server.eegToPhaseState. rewrite Hna, Hnt, Hng.
    cbn. rewrite Rltb_false by lra. cbn.
    split; [reflexivity | split; [ring |]].
    replace (0 + 0) with 0 by ring. rewrite sqrt_0. lra.
Qed.

(** X17.  [computeTriad] of a state that [eegToPhaseState] makes of such
    feature weights is never degenerate: [jolt] and [observer] are real and
    [jolt^2 + observer^2 >= 0.25], the amplitude being at least 0.5.  So when
    the singularity branch is taken [jolt] is not 0, and [vhitzee] is
    +Infinity for a positive [jolt] and -Infinity for a negative one. *)
Theorem server_triad_never_degenerate (now : Z) (bands : Server.Bands) (B : R) :
  0 <= B ->
  3 * PI * B <= JS.MAX_VALUE ->
  feature_within B (Server.alpha bands) ->
  feature_within B (Server.theta_band bands) ->
  feature_within B (Server.gamma bands) ->
  let t := Server.computeTriad (Server.eegToPhaseState now bands) in
  exists j o,
    jolt t = JS.Num j /\ observer t = JS.Num o /\
    0.25 <= j * j + o * o /\
    (Rabs o < 1e-10 ->
     j <> 0 /\ (0 < j -> vhitzee t = JS.PosInf) /\ (j < 0 -> vhitzee t = JS.NegInf)).
Proof.
  intros HB _ Ha Ht Hg t. subst t.
  destruct (eegToPhaseState_bounded now bands B HB Ha Ht Hg)
    as (th & a & -> & _ & Hamp & _).
  rewrite Server_computeTriad_eq, Core_computeTriad_real. cbn [jolt observer vhitzee].
  set (j := a * sin (th + 0)). set (o := a * cos (th + 0)).
  assert (Hcircle : j * j + o * o = a * a).
  { pose proof (sin2_cos2 (th + 0)) as Hsc. unfold Rsqr in Hsc. subst j o.
    replace (a * sin (th + 0) * (a * sin (th + 0)) + a * cos (th + 0) * (a * cos (th + 0)))
      with (a * a * (sin (th + 0) * sin (th + 0) + cos (th + 0) * cos (th + 0))) by ring.
    rewrite Hsc. ring. }
  exists j, o. split; [reflexivity | split; [reflexivity | split; [nra |]]].
  intros Hsmall. rewrite Rltb_true by exact Hsmall.
  assert (Hosq : o * o < 0.01).
  { assert (Hbound : Rabs o * Rabs o < 0.01).
    { pose proof (Rabs_pos o). nra. }
    unfold Rabs in Hbound. destruct (Rcase_abs o); nra. }
  split; [intros Hzero; rewrite Hzero in Hcircle; nra | split].
  - intros Hpos. now rewrite Rltb_true.
  - intros Hneg. now rewrite Rltb_false by lra.
Qed.

End ServerProcessorTheorems.

(** The feature weights [{alpha: 0.35, theta: 0.15, gamma: 0.08}], within 1. *)
Lemma eegToPhaseState_range_demo :
  exists th a,
    Server.eegToPhaseState 0 alpha_bands = real_state th a 0 0 /\
    (0 <= th <= 3 * PI * 1)%R /\ (0.5 <= a <= sqrt (2 * 1) * 0.8 + 0.5)%R.
Proof.
  pose proof PI_RGT_0 as Hpi. pose proof PI_4 as Hpi4. pose proof MAX_VALUE_ge as Hmax.
  apply (proj1 (eegToPhaseState_range 0 alpha_bands 1
                  ltac:(lra) ltac:(lra)
                  ltac:(simpl; lra) ltac:(simpl; lra) ltac:(simpl; lra))).
Defined.

Lemma server_triad_never_degenerate_demo :
  let t := Server.computeTriad (Server.eegToPhaseState 0 alpha_bands) in
  exists j o,
    jolt t = JS.Num j /\ observer t = JS.Num o /\
    (0.25 <= j * j + o * o)%R /\
    ((Rabs o < 1e-10)%R ->
     j <> 0%R /\ ((0 < j)%R -> vhitzee t = JS.PosInf) /\ ((j < 0)%R -> vhitzee t = JS.NegInf)).
Proof.
  pose proof PI_RGT_0 as Hpi. pose proof PI_4 as Hpi4. pose proof MAX_VALUE_ge as Hmax.
  apply (server_triad_never_degenerate 0 alpha_bands 1); simpl; lra.
Defined.

(* ====================================================================== *)
(** * The routes *)
(* ====================================================================== *)

Section RouteProperties.
Context `{Crypto} `{Server.NumberFormat}.

(** X19.  [POST /aggregate] never stores a request that carries raw EEG: with
    a truthy [raw_eeg] or [eeg_samples] the answer is 400 or 403 and the
    process is unchanged.  It answers 200 only for a [vitality] object without
    raw data, and then [ledger.json] has gained exactly one entry, at the end,
    whose index is the [entry_id] of the answer; the geometric registry and
    the clients are untouched. *)
Theorem post_aggregate_never_stores_raw
    (now : Z) (vitality node_id snh_digest raw_eeg eeg_samples : json) (p : Server.Process) :
  let result := Server.post_aggregate now vitality node_id snh_digest raw_eeg eeg_samples p in
  exists response,
    fst result = Return response /\
    (Server.json_truthy raw_eeg = true \/ Server.json_truthy eeg_samples = true ->
     (Server.status_code response = 400%nat \/ Server.status_code response = 403%nat) /\
     snd result = p) /\
    (Server.status_code response <> 200%nat -> snd result = p) /\
    (Server.status_code response = 200%nat ->
     (exists fields, vitality = JObj fields) /\
     (exists entry,
        Server.ledger_json (Server.server (snd result))
        = (Server.ledger_json (Server.server p) ++ [entry])%list) /\
     Server.body response
     = JObj [ ("status", JStr "witnessed");
              ("entry_id",
               JNum (JS.Num (INR (List.length (Server.ledger_json (Server.server p)))))) ] /\
     Server.geometricFPT (Server.server (snd result)) = Server.geometricFPT (Server.server p) /\
     Server.clients (snd result) = Server.clients p).
Proof.
  intros result. subst result. unfold Server.post_aggregate.
  destruct (negb (Server.json_truthy vitality) || Server.not_an_object vitality) eqn:Hvalid.
  - eexists. split; [reflexivity |]. cbn [fst snd Server.status_code].
    split; [intros _; split; [now left | reflexivity] | split; [reflexivity | discriminate]].
  - destruct (Server.json_truthy raw_eeg || Server.json_truthy eeg_samples) eqn:Hraw.
    + eexists. split; [reflexivity |]. cbn [fst snd Server.status_code].
      split; [intros _; split; [now right | reflexivity] | split; [reflexivity | discriminate]].
    + eexists. split; [reflexivity |]. cbn [fst snd Server.status_code].
      apply Bool.orb_false_iff in Hraw as [Hraw Hsamples].
      split; [intros [Hr | Hr]; congruence | split; [congruence |]].
      intros _. split; [| split; [| split; [| split; reflexivity]]].
      * apply Bool.orb_false_iff in Hvalid as [Htruthy Hobject].
        destruct vitality; cbn in Htruthy, Hobject; try discriminate. now eexists.
      * eexists. reflexivity.
      * cbn [Server.body]. unfold JS.of_nat, JS.sub. cbn [JS.add JS.neg].
        rewrite length_app, plus_INR. cbn [List.length].
        match goal with
        | |- context [JS.Num (?n + INR 1 + ?m)%R] =>
            replace (n + INR 1 + m)%R with n by (change (INR 1) with 1%R; ring)
        end.
        reflexivity.
Qed.

(** [POST /aggregate/geometric] leaves the process as it was. *)
Lemma Server_post_aggregate_geometric_frame
    (now_state now_packet : Z) (rd : Server.Readings)
    (req : Server.GeometricRequest) (p : Server.Process) :
  snd (Server.post_aggregate_geometric now_state now_packet rd req p) = p.
Proof.
  unfold Server.post_aggregate_geometric, Server.catch_500.
  destruct p as [[registry ledger] clients].
  destruct (Server.req_bands req) as [bands |]; [| reflexivity].
  destruct (negb (truthy_string (Server.req_node_id req))
            || negb (truthy_string (Server.req_session_id req))); reflexivity.
Qed.

(** X20.  [POST /aggregate/geometric] never answers 200 and never changes
    anything.  It answers 400 exactly when [bands] is missing or [node_id] or
    [session_id] is empty or missing.  Every other request reaches
    [processAndLog], where [createPhasePacket] throws on [this.computeTriad]
    before anything is logged or broadcast; the handler catches it and answers
    500 with the message of the TypeError. *)
Theorem post_aggregate_geometric_effect
    (now_state now_packet : Z) (rd : Server.Readings)
    (req : Server.GeometricRequest) (p : Server.Process) :
  let result := Server.post_aggregate_geometric now_state now_packet rd req p in
  snd result = p /\
  exists response,
    fst result = Return response /\
    (Server.status_code response = 400%nat \/ Server.status_code response = 500%nat) /\
    (Server.status_code response = 400%nat <->
     Server.req_bands req = None \/
     truthy_string (Server.req_node_id req) = false \/
     truthy_string (Server.req_session_id req) = false) /\
    (Server.status_code response = 500%nat ->
     Server.body response
     = JObj [ ("error", JStr "this.computeTriad is not a function") ]).
Proof.
  intros result. subst result.
  unfold Server.post_aggregate_geometric, Server.catch_500.
  destruct p as [[registry ledger] clients].
  destruct (Server.req_bands req) as [bands |] eqn:Hbands.
  - destruct (truthy_string (Server.req_node_id req)) eqn:Hnode.
    + destruct (truthy_string (Server.req_session_id req)) eqn:Hsession; cbn [negb orb].
      * split; [reflexivity |]. eexists. split; [reflexivity |].
        cbn [Server.status_code Server.body].
        split; [now right | split; [| reflexivity]].
        split; [discriminate | intros [? | [? | ?]]; discriminate].
      * split; [reflexivity |]. eexists. split; [reflexivity |].
        cbn [Server.status_code Server.body].
        split; [now left | split; [| discriminate]].
        split; [intros _; right; now right | reflexivity].
    + cbn [negb orb].
      split; [reflexivity |]. eexists. split; [reflexivity |].
      cbn [Server.status_code Server.body].
      split; [now left | split; [| discriminate]].
      split; [intros _; right; now left | reflexivity].
  - split; [reflexivity |]. eexists. split; [reflexivity |].
    cbn [Server.status_code Server.body].
    split; [now left | split; [| discriminate]].
    split; [intros _; now left | reflexivity].
Qed.

(** X21.  The geometric registry of the server stays as it was made: no
    sequence of requests to [POST /aggregate], [POST /revoke],
    [POST /aggregate/geometric] and the three GET routes below puts a node
    state, a group state or a ledger entry into it.  So [GET /phase/:node_id]
    answers 404 for every node, [GET /coherence/:group_id] answers 404 for
    every group, and [GET /ledger/geometric] lists no entry, [count] 0. *)
Theorem geometric_registry_stays_empty (p : Server.Process) :
  Server.served p ->
  Server.geometricFPT (Server.server p) = Server.new_Registry /\
  (forall node_id,
     Server.get_phase node_id p
     = (Return {| Server.status_code := 404;
                  Server.body := JObj [ ("error", JStr "Node not found") ] |}, p)) /\
  (forall group_id,
     Server.get_coherence group_id p
     = (Return {| Server.status_code := 404;
                  Server.body := JObj [ ("error", JStr "Group not found") ] |}, p)) /\
  Server.get_ledger_geometric p
  = (Return {| Server.entries := []; Server.count := 0; Server.geometric := true |}, p).
Proof.
  intros Hserved.
  assert (Hnew : Server.geometricFPT (Server.server p) = Server.new_Registry).
  { induction Hserved as [ledger
                         | now vitality node_id snh_digest raw_eeg eeg_samples p Hp IH
                         | revocation_token session_id p Hp IH
                         | now_state now_packet rd req p Hp IH
                         | node_id p Hp IH | group_id p Hp IH | p Hp IH
                         | clients p Hp IH].
    - reflexivity.
    - unfold Server.post_aggregate.
      destruct (negb (Server.json_truthy vitality) || Server.not_an_object vitality);
        [exact IH |].
      destruct (Server.json_truthy raw_eeg || Server.json_truthy eeg_samples);
        [exact IH | exact IH].
    - cbn [Server.server].
      unfold Server.post_revoke.
      destruct (negb (Server.json_truthy revocation_token)); exact IH.
    - rewrite Server_post_aggregate_geometric_frame. exact IH.
    - unfold Server.get_phase, bind, get.
      destruct (Map_get _ node_id); exact IH.
    - unfold Server.get_coherence, bind, get.
      destruct (Map_get _ group_id); exact IH.
    - exact IH.
    - exact IH. }
  split; [exact Hnew | split; [| split]].
  - intros node_id. unfold Server.get_phase, bind, get. now rewrite Hnew.
  - intros group_id. unfold Server.get_coherence, bind, get. now rewrite Hnew.
  - unfold Server.get_ledger_geometric, bind, get. now rewrite Hnew.
Qed.

End RouteProperties.

(** The demonstration's request on a server just started: answered 500, and
    [GET /phase/Node_Alpha] then answers 404. *)
Lemma geometric_registry_stays_empty_demo :
  let p := snd (@Server.post_aggregate_geometric demo_crypto demo_format 0 0
                  server_readings demo_request demo_process) in
  fst (@Server.post_aggregate_geometric demo_crypto demo_format 0 0
         server_readings demo_request demo_process)
  = Return {| Server.status_code := 500;
              Server.body := JObj [ ("error", JStr "this.computeTriad is not a function") ] |} /\
  fst (@Server.get_phase demo_format "Node_Alpha" p)
  = Return {| Server.status_code := 404;
              Server.body := JObj [ ("error", JStr "Node not found") ] |} /\
  fst (@Server.get_ledger_geometric p)
  = Return {| Server.entries := []; Server.count := 0; Server.geometric := true |}.
Proof.
  intros p.
  assert (Hserved : @Server.served demo_crypto demo_format p).
  { apply Server.served_aggregate_geometric.
    exact (Server.served_clients (Server.clients demo_process) (Server.served_start [])). }
  destruct (@geometric_registry_stays_empty demo_crypto demo_format p Hserved)
    as (_ & Hphase & _ & Hledger).
  split; [reflexivity | split].
  - now rewrite Hphase.
  - now rewrite Hledger.
Defined.
